(** * pregnancy-food-api: the /analyze route

    A shallow embedding of [src/routes/analyze.py]: the hazard catalog
    [AVOID_FOODS], the random mock classifier [analyze_image_mock], the
    vision client [call_gemini_api] with the interpretation of the model's
    reply, and the endpoint [analyze_food].

    Python strings are modelled by [string] (their UTF-8 bytes). The code only
    inspects the ASCII characters [,], [{], [}] and the ASCII prefix
    [data:image/], none of which occurs inside a multi-byte sequence, so
    splitting, prefix tests and the brace search agree with Python's.

    The code calls into libraries that are not part of the repository
    (os.environ, base64, json, the generative model, Flask's request, Python's
    own [str]). They are gathered in a record [World]; every theorem is about
    all worlds unless it says otherwise. *)

From stdpp Require Import strings gmap list.
From Stdlib Require Import Ascii ZArith Floats.PrimFloat.

Set Warnings "-register-all,-inexact-float".
Local Open Scope string_scope.

(** ** Values *)

(** What [json.loads] and [request.get_json] return: Python's None, bool, int,
    float, str, list and dict (with string keys). *)
Inductive JValue :=
| JNull
| JBool (b : bool)
| JInt (z : Z)
| JFloat (f : float)
| JStr (s : string)
| JList (l : list JValue)
| JDict (d : gmap string JValue).

(** [type(v).__name__] *)
Definition type_name (v : JValue) : string :=
  match v with
  | JNull => "NoneType"
  | JBool _ => "bool"
  | JInt _ => "int"
  | JFloat _ => "float"
  | JStr _ => "str"
  | JList _ => "list"
  | JDict _ => "dict"
  end.

(** The exceptions the route can meet. The first four are raised by the
    interpreter on the operations of the code itself; [External] stands for
    whatever a library raises (binascii.Error, JSONDecodeError, a transport
    error, a werkzeug HTTP error, ...). All of them derive from [Exception]. *)
Inductive exn :=
| KeyError (key : string)
| IndexError
| AttributeError (ty attr : string)
| TypeError (operation ty : string)
| External (description : string).

(** Python truthiness, as used by [not data], [not api_key] and
    [if f.get('risk')]. *)
Definition truthy (v : JValue) : bool :=
  match v with
  | JNull => false
  | JBool b => b
  | JInt z => negb (z =? 0)%Z
  | JFloat f => negb (PrimFloat.eqb f 0%float)
  | JStr s => negb (String.eqb s "")
  | JList l => negb (bool_decide (length l = 0))
  | JDict d => negb (bool_decide (size d = 0))
  end.

(** [v.get(key, default)]: only a dict has the method. *)
Definition get (v : JValue) (key : string) (dflt : JValue) : exn + JValue :=
  match v with
  | JDict d => inr (default dflt (d !! key))
  | _ => inl (AttributeError (type_name v) "get")
  end.

(** [v[key]] for a string key. *)
Definition subscript (v : JValue) (key : string) : exn + JValue :=
  match v with
  | JDict d => match d !! key with
               | Some x => inr x
               | None => inl (KeyError key)
               end
  | _ => inl (TypeError "getitem" (type_name v))
  end.

(** [for f in v]: the items Python iterates over. A dict yields its keys and
    a str its characters (as one-character strings). *)
Definition iterate (v : JValue) : exn + list JValue :=
  match v with
  | JList l => inr l
  | JDict d => inr (JStr <$> (map_to_list d).*1)
  | JStr s => inr ((λ c, JStr (String c "")) <$> String.list_ascii_of_string s)
  | _ => inl (TypeError "iter" (type_name v))
  end.

(** ** Strings *)

(** [c in s] for a one-character [c]. *)
Fixpoint contains (c : ascii) (s : string) : bool :=
  match s with
  | "" => false
  | String a r => Ascii.eqb a c || contains c r
  end.

(** [s.split(sep)] for a one-character separator: never empty. *)
Fixpoint split (sep : ascii) (s : string) : list string :=
  match s with
  | "" => [""]
  | String a r =>
      if Ascii.eqb a sep then "" :: split sep r
      else match split sep r with
           | p :: ps => String a p :: ps
           | [] => [String a ""]
           end
  end.

(** [needle in s] for strings. *)
Fixpoint substring_of (needle s : string) : bool :=
  String.prefix needle s ||
  match s with
  | "" => false
  | String _ r => substring_of needle r
  end.

(** The longest prefix of [s] that ends with [}]: what the greedy
    [[\s\S]*\}] takes. *)
Fixpoint upto_last_close (s : string) : option string :=
  match s with
  | "" => None
  | String a r =>
      match upto_last_close r with
      | Some p => Some (String a p)
      | None => if Ascii.eqb a "}" then Some (String a "") else None
      end
  end.

(** [re.search(r'\{[\s\S]*\}', text)] and [match.group(0)]: the leftmost
    start is the first [{] (a later [{] has a closing brace after it only if
    the first one has), and the star is greedy, so the match runs to the last
    [}] of the text. *)
Fixpoint re_search (text : string) : option string :=
  match text with
  | "" => None
  | String a r =>
      if Ascii.eqb a "{" then String a <$> upto_last_close r
      else re_search r
  end.

(** ** Results *)

(** The three shapes of [detected_food]: None, a category id, a list of the
    names the model gave. *)
Inductive DetectedFood :=
| DFNone
| DFId (id : string)
| DFNames (names : list JValue).

(** The dict every classifier returns. *)
Record AssessmentResult := {
  safe : bool;
  detected_food : DetectedFood;
  message : string;
  details : string
}.

(** What [jsonify] is given. *)
Inductive Body :=
| ErrorBody (error : string)
| SuccessBody (result : AssessmentResult).

Record Response := { body : Body; status : Z }.

(** ** The hazard catalog *)

Module Hazard.
Record t := { keywords : list string; message : string; details : string }.
End Hazard.

Definition AVOID_FOODS : list (string * Hazard.t) := [
  ("raw_fish", {|
     Hazard.keywords := ["刺身"; "さしみ"; "sashimi"; "生魚"; "寿司"; "sushi"; "マグロ"; "サーモン"];
     Hazard.message := "生魚が含まれており、妊娠中は避けることをお勧めします";
     Hazard.details := "生魚にはリステリア菌や寄生虫のリスクがあります。詳しくは医師にご相談ください" |});
  ("raw_meat", {|
     Hazard.keywords := ["ユッケ"; "レアステーキ"; "生ハム"; "生肉"];
     Hazard.message := "生肉が含まれており、妊娠中は避けることをお勧めします";
     Hazard.details := "トキソプラズマやリステリア菌のリスクがあります。詳しくは医師にご相談ください" |});
  ("raw_egg", {|
     Hazard.keywords := ["生卵"; "半熟卵"; "カルボナーラ"];
     Hazard.message := "生卵が含まれており、妊娠中は注意が必要です";
     Hazard.details := "サルモネラ菌のリスクがあります。詳しくは医師にご相談ください" |});
  ("soft_cheese", {|
     Hazard.keywords := ["ナチュラルチーズ"; "カマンベール"; "ブルーチーズ"];
     Hazard.message := "ナチュラルチーズが含まれており、妊娠中は避けることをお勧めします";
     Hazard.details := "リステリア菌のリスクがあります。詳しくは医師にご相談ください" |});
  ("alcohol", {|
     Hazard.keywords := ["アルコール"; "ワイン"; "ビール"; "日本酒"; "焼酎"];
     Hazard.message := "アルコールが含まれており、妊娠中は摂取を避けてください";
     Hazard.details := "胎児の発育に影響を与える可能性があります。詳しくは医師にご相談ください" |})
].

(** [AVOID_FOODS[food_type]] *)
Fixpoint lookup_food (food_type : string) (table : list (string * Hazard.t)) : exn + Hazard.t :=
  match table with
  | [] => inl (KeyError food_type)
  | (k, h) :: rest => if String.eqb k food_type then inr h else lookup_food food_type rest
  end.

(** ** Failing computations and the state of a run *)

(** A pure computation that may raise. *)
Definition Result (A : Type) : Type := (exn + A)%type.

Definition bindR {A B} (m : Result A) (k : A → Result B) : Result B :=
  match m with
  | inl e => inl e
  | inr a => k a
  end.

Notation "x <- m ;; k" := (bindR m (λ x, k))
  (at level 100, m at next level, right associativity).

(** [[g(x) for x in xs]], raising at the first item on which [g] raises. *)
Fixpoint mapR {A B} (g : A → Result B) (xs : list A) : Result (list B) :=
  match xs with
  | [] => inr []
  | x :: rest => y <- g x ;; ys <- mapR g rest ;; inr (y :: ys)
  end.

(** [[x for x in xs if p(x)]], raising at the first item on which [p] raises. *)
Fixpoint filterR {A} (p : A → Result bool) (xs : list A) : Result (list A) :=
  match xs with
  | [] => inr []
  | x :: rest => b <- p x ;; ys <- filterR p rest ;; inr (if b : bool then x :: ys else ys)
  end.

(** One request to the external model: the prompt and the image part. *)
Record ModelCall := {
  call_prompt : string;
  call_mime_type : string;
  call_data : list Byte.byte
}.

(** The hidden state of the [random] module: the floats [random.random()]
    will return, the positions [random.choice] will pick, and how many draws
    were consumed. *)
Record Rng := { uniform : nat → float; pick : nat → nat; cursor : nat }.

(** What a run can change: the generator and the log of model calls. *)
Record State := { rng : Rng; calls : list ModelCall }.

(** An effectful computation: it returns or raises, and leaves a state. *)
Definition M (A : Type) : Type := State → Result A * State.

Definition ret {A} (a : A) : M A := λ st, (inr a, st).

Definition lift {A} (r : Result A) : M A := λ st, (r, st).

Definition bind {A B} (m : M A) (k : A → M B) : M B := λ st,
  match m st with
  | (inr a, st') => k a st'
  | (inl e, st') => (inl e, st')
  end.

Notation "x <~ m ;; k" := (bind m (λ x, k))
  (at level 100, m at next level, right associativity).

(** [try: m  except Exception as e: h(e)] *)
Definition try_except {A} (m : M A) (h : exn → M A) : M A := λ st,
  match m st with
  | (inl e, st') => h e st'
  | r => r
  end.

Definition advance (st : State) : State :=
  {| rng := {| uniform := uniform (rng st); pick := pick (rng st);
               cursor := S (cursor (rng st)) |};
     calls := calls st |}.

(** [random.random()] *)
Definition random_random : M float := λ st,
  (inr (uniform (rng st) (cursor (rng st))), advance st).

(** [random.choice(seq)] *)
Definition random_choice {A} (seq : list A) : M A := λ st,
  match seq !! (pick (rng st) (cursor (rng st)) `mod` length seq) with
  | Some x => (inr x, advance st)
  | None => (inl IndexError, st)
  end.

(** ** The libraries *)

Record World := {
  (** [os.environ.get('GEMINI_API_KEY')] *)
  GEMINI_API_KEY : option string;
  (** [base64.b64decode] *)
  b64decode : string → Result (list Byte.byte);
  (** [model.generate_content([prompt, {mime_type, data}])] followed by
      [response.text] *)
  generate_content : string → string → list Byte.byte → Result string;
  (** [json.loads] *)
  json_loads : string → Result JValue;
  (** [str(v)] on a value that is not a str *)
  str_value : JValue → string;
  (** [str(e)] *)
  str_exn : exn → string
}.

(** The one effect of [generate_content]: the call is made. *)
Definition model_generate_content (w : World) (prompt mime_type : string)
    (data : list Byte.byte) : M string := λ st,
  (generate_content w prompt mime_type data,
   {| rng := rng st;
      calls := calls st ++ [{| call_prompt := prompt; call_mime_type := mime_type;
                               call_data := data |}] |}).

(** [request]: what [request.get_json()] gives for it. *)
Record Request := { get_json : Result JValue }.

Definition dq : string := String "034"%char "".
Definition nl : string := String "010"%char "".

(** ** analyze_image_mock *)

Definition analyze_image_mock (image_data : string) : M AssessmentResult :=
  r <~ random_random ;;
  (* 0.3 is read as the nearest binary64 value, as Python reads it *)
  if (r <? 0.3)%float then
    food_type <~ random_choice (AVOID_FOODS.*1) ;;
    entry <~ lift (lookup_food food_type AVOID_FOODS) ;;
    ret {| safe := false;
           detected_food := DFId food_type;
           message := Hazard.message entry;
           details := Hazard.details entry |}
  else
    ret {| safe := true;
           detected_food := DFId "safe_food";
           message := "この食事は妊娠中でも安心してお召し上がりいただけます";
           details := "" |}.

(** ** call_gemini_api *)

Definition prompt : string :=
  "妊婦がとる食事の画像を元に、そこに妊婦にとってリスクのある食材が含まれているかを判定する手助けをしてください。この画像に含まれる食品名をリストアップし、それぞれが妊婦にとってリスクがあるかどうかを判定してください。"
  ++ "必ず次のJSON形式で返してください。"
  ++ nl ++ nl
  ++ "{" ++ nl ++ "  " ++ dq ++ "foods" ++ dq ++ ": [" ++ nl
  ++ "    {" ++ dq ++ "name" ++ dq ++ ": " ++ dq ++ "食品名" ++ dq ++ ", "
  ++ dq ++ "risk" ++ dq ++ ": true/false, "
  ++ dq ++ "details" ++ dq ++ ": " ++ dq ++ "リスクの説明（なければ空文字）" ++ dq ++ "},"
  ++ nl ++ "    ..." ++ nl ++ "  ]" ++ nl ++ "}"
  ++ nl ++ nl
  ++ "リスクがある食品がなければ、'risk': false だけの配列で返してください。説明文や表は不要です。".

(** The four error results of [call_gemini_api] and its verdict for a meal
    without flagged food. *)
Definition credential_missing : AssessmentResult :=
  {| safe := false; detected_food := DFNone;
     message := "Gemini APIキーが設定されていません"; details := "" |}.

Definition extraction_failed (text : string) : AssessmentResult :=
  {| safe := false; detected_food := DFNone;
     message := "GeminiのレスポンスからJSONを抽出できませんでした"; details := text |}.

Definition parse_error (w : World) (e : exn) (foods_json : string) : AssessmentResult :=
  {| safe := false; detected_food := DFNone;
     message := "GeminiのJSONパースエラー: " ++ str_exn w e; details := foods_json |}.

Definition api_error (w : World) (e : exn) : AssessmentResult :=
  {| safe := false; detected_food := DFNone;
     message := "Gemini API呼び出しエラー: " ++ str_exn w e; details := "" |}.

Definition no_risk : AssessmentResult :=
  {| safe := true; detected_food := DFNames [];
     message := "この食事は妊娠中でも安心してお召し上がりいただけます"; details := "" |}.

Definition risk_found (names : list JValue) (lines : list string) : AssessmentResult :=
  {| safe := false; detected_food := DFNames names;
     message := "リスクがある食品が含まれています。詳細をご確認ください。";
     details := String.concat nl lines |}.

(** [f"{v}"]: a str is inserted as it is, anything else through [str]. *)
Definition format_value (w : World) (v : JValue) : string :=
  match v with
  | JStr s => s
  | _ => str_value w v
  end.

(** Lines 78 to 81: the base64 part of the data URI. *)
Definition image_b64 (image_data : string) : Result string :=
  if contains "," image_data then
    match split "," image_data !! 1%nat with
    | Some part => inr part
    | None => inl IndexError
    end
  else inr image_data.

(** [f.get('risk')] as a condition. *)
Definition is_risky (f : JValue) : Result bool :=
  r <- get f "risk" JNull ;; inr (truthy r).

(** [f"{f['name']}: {f['details']}"] *)
Definition detail_line (w : World) (f : JValue) : Result string :=
  name <- subscript f "name" ;;
  d <- subscript f "details" ;;
  inr (format_value w name ++ ": " ++ format_value w d).

(** Lines 121 to 137: the verdict over the parsed [foods]. *)
Definition verdict (w : World) (foods : JValue) : Result AssessmentResult :=
  items <- iterate foods ;;
  risky_foods <- filterR is_risky items ;;
  if bool_decide (length risky_foods = 0) then inr no_risk
  else
    detected <- mapR (λ f, subscript f "name") risky_foods ;;
    lines <- mapR (detail_line w) risky_foods ;;
    inr (risk_found detected lines).

(** Lines 99 to 137, the body of the [try] after the model has replied
    [text]. It returns a result or raises; the inner [try] turns a failure of
    [json.loads] or of [foods_data.get] into a result. *)
Definition read_reply (w : World) (text : string) : Result AssessmentResult :=
  match re_search text with
  | None => inr (extraction_failed text)
  | Some foods_json =>
      match (foods_data <- json_loads w foods_json ;; get foods_data "foods" (JList [])) with
      | inl e => inr (parse_error w e foods_json)
      | inr foods => verdict w foods
      end
  end.

(** [api_key] as a condition: None and the empty string are falsy. *)
Definition is_set (api_key : option string) : bool :=
  match api_key with
  | None | Some "" => false
  | Some _ => true
  end.

(** [genai.configure] and [genai.GenerativeModel] (lines 75 and 76) only
    record the key and the model name; the one request to the service is
    [generate_content]. The payload is decoded on line 83, before the [try]
    that starts on line 91. *)
Definition call_gemini_api (w : World) (image_data : string) : M AssessmentResult :=
  let api_key := GEMINI_API_KEY w in
  if negb (is_set api_key) then ret credential_missing
  else
    b64 <~ lift (image_b64 image_data) ;;
    image_bytes <~ lift (b64decode w b64) ;;
    try_except
      (text <~ model_generate_content w prompt "image/jpeg" image_bytes ;;
       lift (read_reply w text))
      (λ e, ret (api_error w e)).

(** What [call_gemini_api] returns once the model has replied [text]: the
    body of the [try] under its handler. *)
Definition interpret (w : World) (text : string) : AssessmentResult :=
  match read_reply w text with
  | inr r => r
  | inl e => api_error w e
  end.

(** ** analyze_food *)

(** ['image' not in data] *)
Definition lacks (key : string) (data : JValue) : Result bool :=
  match data with
  | JDict d => inr (bool_decide (d !! key = None))
  | JList l => inr (negb (existsb (λ v, match v with
                                        | JStr s => String.eqb s key
                                        | _ => false
                                        end) l))
  | JStr s => inr (negb (substring_of key s))
  | _ => inl (TypeError "in" (type_name data))
  end.

(** [image_data.startswith(p)]: only a str has the method. The str itself
    is returned with the answer, for the call that follows. *)
Definition startswith (image_data : JValue) (p : string) : Result (bool * string) :=
  match image_data with
  | JStr s => inr (String.prefix p s, s)
  | _ => inl (AttributeError (type_name image_data) "startswith")
  end.

(** The handler of [POST /analyze]: the response and its status code. *)
Definition analyze_food (w : World) (request : Request) : M Response :=
  try_except
    (data <~ lift (get_json request) ;;
     missing <~ lift (if negb (truthy data) then inr true else lacks "image" data) ;;
     if missing : bool then
       ret {| body := ErrorBody "画像データが提供されていません"; status := 400 |}
     else
       image_data <~ lift (subscript data "image") ;;
       checked <~ lift (startswith image_data "data:image/") ;;
       if negb checked.1 then
         ret {| body := ErrorBody "無効な画像形式です"; status := 400 |}
       else
         result <~ call_gemini_api w checked.2 ;;
         ret {| body := SuccessBody result; status := 200 |})
    (λ e, ret {| body := ErrorBody ("分析中にエラーが発生しました: " ++ str_exn w e);
                 status := 500 |}).

(** ** Worlds and requests for the examples *)

Definition example_str_exn (e : exn) : string :=
  match e with
  | KeyError key => "'" ++ key ++ "'"
  | IndexError => "list index out of range"
  | AttributeError ty attr => "'" ++ ty ++ "' object has no attribute '" ++ attr ++ "'"
  | TypeError operation ty => "'" ++ ty ++ "' object does not support " ++ operation
  | External description => description
  end.

(** A world for examples: the decoder knows the payload [AAAA] (three zero
    bytes) and rejects everything else, as Python's rejects [AAA] with
    [Incorrect padding]; the model answers [reply] and the JSON library is
    [parse]. *)
Definition example_world (api_key : option string) (reply : Result string)
    (parse : string → Result JValue) : World :=
  {| GEMINI_API_KEY := api_key;
     b64decode := λ s, if String.eqb s "AAAA" then inr [Byte.x00; Byte.x00; Byte.x00]
                       else inl (External "Incorrect padding");
     generate_content := λ _ _ _, reply;
     json_loads := parse;
     str_value := λ v, "<" ++ type_name v ++ ">";
     str_exn := example_str_exn |}.

(** A JSON library that knows one text. *)
Definition parses (text : string) (v : JValue) : string → Result JValue :=
  λ s, if String.eqb s text then inr v else inl (External "Expecting value").

Definition fresh : State :=
  {| rng := {| uniform := λ _, 0.5%float; pick := λ n, n; cursor := 0 |}; calls := [] |}.

Definition post (image : string) : Request :=
  {| get_json := inr (JDict {[ "image" := JStr image ]}) |}.

(** The reply [{'foods':[{'risk':true}]}] (with double quotes) and what
    [json.loads] makes of it. *)
Definition nameless_text : string :=
  "{" ++ dq ++ "foods" ++ dq ++ ":[{" ++ dq ++ "risk" ++ dq ++ ":true}]}".
Definition nameless_json : JValue :=
  JDict {[ "foods" := JList [JDict {[ "risk" := JBool true ]}] ]}.

(** A reply with a sentence before the JSON: two foods, salmon (a risk,
    with details [parasites]) and salad (no risk, empty details), and the
    parse of the JSON part. *)
Definition salmon_json_text : string :=
  "{" ++ dq ++ "foods" ++ dq ++ ":[{" ++ dq ++ "name" ++ dq ++ ":" ++ dq ++ "salmon" ++ dq
  ++ "," ++ dq ++ "risk" ++ dq ++ ":true," ++ dq ++ "details" ++ dq ++ ":" ++ dq
  ++ "parasites" ++ dq ++ "},{" ++ dq ++ "name" ++ dq ++ ":" ++ dq ++ "salad" ++ dq
  ++ "," ++ dq ++ "risk" ++ dq ++ ":false," ++ dq ++ "details" ++ dq ++ ":" ++ dq ++ dq ++ "}]}".
Definition salmon_text : string := "Here is the result: " ++ salmon_json_text.
Definition salmon_json : JValue :=
  JDict {[ "foods" := JList [
    JDict (<[ "name" := JStr "salmon" ]> (<[ "risk" := JBool true ]> {[ "details" := JStr "parasites" ]}));
    JDict (<[ "name" := JStr "salad" ]> (<[ "risk" := JBool false ]> {[ "details" := JStr "" ]})) ] ]}.

(** The state after one call of the model with [image_bytes]. *)
Definition called (st : State) (image_bytes : list Byte.byte) : State :=
  {| rng := rng st;
     calls := calls st ++ [{| call_prompt := prompt; call_mime_type := "image/jpeg";
                              call_data := image_bytes |}] |}.

(** ** Notions of the specification *)

(** Whether [detected_food] denotes no hazard. An id of the catalog and a
    non-empty list of names denote hazards. None stands for an assessment
    that was not performed: it does not say that the meal has no hazard. *)
Definition denotes_no_hazard (d : DetectedFood) : bool :=
  match d with
  | DFNone => false
  | DFId id => negb (existsb (String.eqb id) (AVOID_FOODS.*1))
  | DFNames names => bool_decide (length names = 0)
  end.

(** The invariant of an AssessmentResult. *)
Definition invariant (r : AssessmentResult) : Prop :=
  safe r = true ↔ denotes_no_hazard (detected_food r) = true ∧ details r = "".

(** The text up to the brace that closes the object opened [depth + 1]
    levels up. *)
Fixpoint close_at_depth (depth : nat) (s : string) : option string :=
  match s with
  | "" => None
  | String a r =>
      if Ascii.eqb a "{" then String a <$> close_at_depth (S depth) r
      else if Ascii.eqb a "}" then
        match depth with
        | O => Some (String a "")
        | S d => String a <$> close_at_depth d r
        end
      else String a <$> close_at_depth depth r
  end.

(** The first balanced outermost [{...}] of a text, in the words of the
    specification. *)
Fixpoint first_balanced_object (text : string) : option string :=
  match text with
  | "" => None
  | String a r =>
      if Ascii.eqb a "{" then
        match close_at_depth 0 r with
        | Some p => Some (String a p)
        | None => first_balanced_object r
        end
      else first_balanced_object r
  end.

(** Everything after the first comma, in the words of the specification. *)
Fixpoint after_first_comma (s : string) : option string :=
  match s with
  | "" => None
  | String a r => if Ascii.eqb a "," then Some r else after_first_comma r
  end.

(** A field of an item of [foods], None when it is missing. *)
Definition field (key : string) (item : JValue) : JValue :=
  match item with
  | JDict f => default JNull (f !! key)
  | _ => JNull
  end.

Definition has_field (key : string) (item : JValue) : bool :=
  match item with
  | JDict f => bool_decide (is_Some (f !! key))
  | _ => false
  end.

(** The items whose [risk] is truthy, their names and their lines. *)
Definition flagged (items : list JValue) : list JValue :=
  List.filter (λ item, truthy (field "risk" item)) items.

Definition names_of (items : list JValue) : list JValue :=
  field "name" <$> items.

Definition lines_of (w : World) (items : list JValue) : list string :=
  (λ item, format_value w (field "name" item) ++ ": " ++ format_value w (field "details" item))
  <$> items.

(** An item the verdict can be computed on: an object which, when its [risk]
    is truthy, has a [name] and [details]. *)
Definition well_formed (item : JValue) : bool :=
  match item with
  | JDict _ => negb (truthy (field "risk" item))
               || (has_field "name" item && has_field "details" item)
  | _ => false
  end.

(** An object with a truthy [risk] that lacks [name] or [details]. *)
Definition flagged_incomplete (item : JValue) : bool :=
  match item with
  | JDict _ => truthy (field "risk" item)
               && negb (has_field "name" item && has_field "details" item)
  | _ => false
  end.


(** The world [w] with a model that answers [reply] to every call. *)
Definition with_reply (w : World) (reply : Result string) : World :=
  {| GEMINI_API_KEY := GEMINI_API_KEY w;
     b64decode := b64decode w;
     generate_content := λ _ _ _, reply;
     json_loads := json_loads w;
     str_value := str_value w;
     str_exn := str_exn w |}.

(** ** The catalog endpoint and further notions *)

(** The payload [{'avoid_foods': AVOID_FOODS}] of [GET /foods/avoid]. *)
Record AvoidFoods := { avoid_foods : list (string * Hazard.t) }.

(** [jsonify] answers with status 200 when no status is given. *)
Definition get_avoid_foods : AvoidFoods * Z := ({| avoid_foods := AVOID_FOODS |}, 200%Z).

(** The verdict of the mock classifier for a meal without hazard. *)
Definition mock_safe : AssessmentResult :=
  {| safe := true; detected_food := DFId "safe_food";
     message := "この食事は妊娠中でも安心してお召し上がりいただけます"; details := "" |}.

(** The verdict of the mock classifier for a category of the catalog. *)
Definition mock_hazard (food_type : string) (entry : Hazard.t) : AssessmentResult :=
  {| safe := false; detected_food := DFId food_type;
     message := Hazard.message entry; details := Hazard.details entry |}.

(** The response of the endpoint's handler for an exception. *)
Definition server_error (w : World) (e : exn) : Response :=
  {| body := ErrorBody ("分析中にエラーが発生しました: " ++ str_exn w e); status := 500 |}.

Definition is_dict (v : JValue) : bool :=
  match v with
  | JDict _ => true
  | _ => false
  end.

(** A flagged item without the field [key]. *)
Definition flagged_without (key : string) (item : JValue) : bool :=
  truthy (field "risk" item) && negb (has_field key item).

(** The reply [{'foods':null}] (with double quotes) and its parse. *)
Definition null_foods_text : string := "{" ++ dq ++ "foods" ++ dq ++ ":null}".
Definition null_foods_json : JValue := JDict {[ "foods" := JNull ]}.

(** The reply [{'foods':[{'risk':false},3]}] (with double quotes) and its
    parse. *)
Definition mixed_foods_text : string :=
  "{" ++ dq ++ "foods" ++ dq ++ ":[{" ++ dq ++ "risk" ++ dq ++ ":false},3]}".
Definition mixed_foods_json : JValue :=
  JDict {[ "foods" := JList [JDict {[ "risk" := JBool false ]}; JInt 3] ]}.

(** The reply [{'foods':[{'name':'a','risk':true},{'risk':true,'details':'d'}]}]
    (with double quotes): the first item lacks details, the second a name. *)
Definition two_gaps_text : string :=
  "{" ++ dq ++ "foods" ++ dq ++ ":[{" ++ dq ++ "name" ++ dq ++ ":" ++ dq ++ "a" ++ dq ++ ","
  ++ dq ++ "risk" ++ dq ++ ":true},{" ++ dq ++ "risk" ++ dq ++ ":true," ++ dq ++ "details"
  ++ dq ++ ":" ++ dq ++ "d" ++ dq ++ "}]}".
Definition two_gaps_items : list JValue :=
  [JDict (<[ "name" := JStr "a" ]> {[ "risk" := JBool true ]});
   JDict (<[ "risk" := JBool true ]> {[ "details" := JStr "d" ]})].

(** The reply [{'foods':[{'name':'a','risk':true}]}] (with double quotes). *)
Definition no_details_text : string :=
  "{" ++ dq ++ "foods" ++ dq ++ ":[{" ++ dq ++ "name" ++ dq ++ ":" ++ dq ++ "a" ++ dq ++ ","
  ++ dq ++ "risk" ++ dq ++ ":true}]}".
Definition no_details_items : list JValue :=
  [JDict (<[ "name" := JStr "a" ]> {[ "risk" := JBool true ]})].

(** * Properties *)

Example mock_sample :
  (analyze_image_mock "x" fresh).1 =
  inr {| safe := true; detected_food := DFId "safe_food";
         message := "この食事は妊娠中でも安心してお召し上がりいただけます"; details := "" |}.
Proof. vm_compute. reflexivity. Qed.

Example salmon_sample :
  interpret (example_world (Some "k") (inr salmon_text) (parses salmon_json_text salmon_json))
    salmon_text
  = risk_found [JStr "salmon"] ["salmon: parasites"].
Proof. vm_compute. reflexivity. Qed.

Example search_sample : re_search "ab{cd}ef{g}h}ij" = Some "{cd}ef{g}h}".
Proof. reflexivity. Qed.

Example split_sample : split "," "a,b,,c" = ["a"; "b"; ""; "c"].
Proof. reflexivity. Qed.

(** ** Strings *)

(** stdpp keeps [simpl] from unfolding the concatenation of strings; the
    proofs below compute with it. *)
Local Arguments String.append !s1 s2 : simpl nomatch.

Lemma append_empty s : s ++ "" = s.
Proof. induction s as [|a s IH]; simpl; [reflexivity | by rewrite IH]. Qed.

Lemma contains_app c s t : contains c (s ++ t) = contains c s || contains c t.
Proof.
  induction s as [|a s IH]; simpl; [reflexivity|].
  rewrite IH. apply orb_assoc.
Qed.

Lemma contains_true c s :
  contains c s = true →
  ∃ pre rest, s = pre ++ String c rest ∧ contains c pre = false.
Proof.
  induction s as [|a s IH]; simpl; [discriminate|].
  destruct (Ascii.eqb a c) eqn:E; simpl.
  - intros _. apply Ascii.eqb_eq in E as ->. by exists "", s.
  - intros (pre & rest & -> & Hpre)%IH.
    exists (String a pre), rest. simpl. by rewrite E.
Qed.

Lemma split_not_nil sep s : split sep s ≠ [].
Proof.
  destruct s as [|a s]; simpl; [discriminate|].
  destruct (Ascii.eqb a sep); [discriminate|].
  destruct (split sep s); discriminate.
Qed.

Lemma split_without sep s : contains sep s = false → split sep s = [s].
Proof.
  induction s as [|a s IH]; simpl; [reflexivity|].
  destruct (Ascii.eqb a sep); simpl; [discriminate|].
  intros ->%IH. reflexivity.
Qed.

Lemma split_at_first sep pre rest :
  contains sep pre = false →
  split sep (pre ++ String sep rest) = pre :: split sep rest.
Proof.
  induction pre as [|a pre IH]; simpl.
  - intros _. by rewrite Ascii.eqb_refl.
  - destruct (Ascii.eqb a sep); simpl; [discriminate|].
    intros ->%IH. reflexivity.
Qed.

Lemma image_b64_total image_data : ∃ part, image_b64 image_data = inr part.
Proof.
  unfold image_b64. destruct (contains "," image_data) eqn:E; [|eauto].
  apply contains_true in E as (pre & rest & -> & Hpre).
  rewrite split_at_first by done.
  destruct (split "," rest) as [|part parts] eqn:Es; [by apply split_not_nil in Es|].
  simpl. eauto.
Qed.

(** ** The base64 part of the data URI *)

(** C8 as the code has it: the base64 data is the piece between the first
    comma and the second one (or the end of the string); a string without a
    comma is used whole. *)
Theorem image_b64_between_commas image_data :
  (contains "," image_data = false → image_b64 image_data = inr image_data) ∧
  (∀ pre part post,
     image_data = pre ++ "," ++ part ++ post →
     contains "," pre = false →
     contains "," part = false →
     post = "" ∨ (∃ rest, post = "," ++ rest) →
     image_b64 image_data = inr part).
Proof.
  split.
  - intros H. unfold image_b64. by rewrite H.
  - intros pre part post -> Hpre Hpart Hpost. unfold image_b64.
    change (pre ++ "," ++ part ++ post) with (pre ++ String "," (part ++ post)).
    rewrite contains_app. simpl. rewrite orb_true_r.
    rewrite split_at_first by done.
    destruct Hpost as [->|[rest ->]].
    + rewrite append_empty. by rewrite split_without.
    + change (part ++ "," ++ rest) with (part ++ String "," rest).
      by rewrite split_at_first.
Qed.

Lemma image_b64_between_commas_witness :
  image_b64 "data:image/jpeg;base64,AAAA" = inr "AAAA" ∧
  image_b64 "AAAA" = inr "AAAA".
Proof.
  split.
  - apply (proj2 (image_b64_between_commas _) "data:image/jpeg;base64" "AAAA" "");
      [reflexivity | reflexivity | reflexivity | by left].
  - apply (proj1 (image_b64_between_commas "AAAA")). reflexivity.
Defined.

(** C8 fails as stated: with a second comma the code keeps only the piece
    between the two, not everything after the first. *)
Lemma image_b64_drops_after_second_comma :
  image_b64 "data:image/png;base64,AAAA,BBBB" = inr "AAAA" ∧
  after_first_comma "data:image/png;base64,AAAA,BBBB" = Some "AAAA,BBBB".
Proof. split; reflexivity. Qed.

(** ** The brace search *)

Lemma upto_last_close_None s : upto_last_close s = None ↔ contains "}" s = false.
Proof.
  induction s as [|a s IH]; simpl; [done|].
  destruct (upto_last_close s) as [p|].
  - split; [done|]. intros [_ H]%orb_false_iff. apply IH in H. done.
  - destruct IH as [IH _]. rewrite IH by done. rewrite orb_false_r.
    destruct (Ascii.eqb a "}"); done.
Qed.

Lemma upto_last_close_Some s p :
  upto_last_close s = Some p →
  ∃ mid post, s = mid ++ "}" ++ post ∧ p = mid ++ "}" ∧ contains "}" post = false.
Proof.
  revert p. induction s as [|a s IH]; simpl; [done|]. intros p.
  destruct (upto_last_close s) as [q|] eqn:E.
  - intros [= <-]. destruct (IH q eq_refl) as (mid & post & -> & -> & Hpost).
    by exists (String a mid), post.
  - destruct (Ascii.eqb a "}") eqn:Ea; [|done]. intros [= <-].
    apply Ascii.eqb_eq in Ea as ->. apply upto_last_close_None in E.
    by exists "", s.
Qed.

Lemma upto_last_close_greedy mid post :
  contains "}" post = false →
  upto_last_close (mid ++ "}" ++ post) = Some (mid ++ "}").
Proof.
  intros Hpost. induction mid as [|a mid IH]; simpl.
  - apply upto_last_close_None in Hpost. by rewrite Hpost.
  - simpl in IH. by rewrite IH.
Qed.

(** What [re_search] finds: the text from the first [{] to the last [}]. *)
Lemma re_search_Some text m :
  re_search text = Some m →
  ∃ pre mid post,
    text = pre ++ "{" ++ mid ++ "}" ++ post ∧ m = "{" ++ mid ++ "}" ∧
    contains "{" pre = false ∧ contains "}" post = false.
Proof.
  induction text as [|a text IH]; simpl; [done|].
  destruct (Ascii.eqb a "{") eqn:Ea.
  - apply Ascii.eqb_eq in Ea as ->.
    destruct (upto_last_close text) as [p|] eqn:E; [|done]. intros [= <-].
    apply upto_last_close_Some in E as (mid & post & -> & -> & Hpost).
    by exists "", mid, post.
  - intros (pre & mid & post & -> & -> & Hpre & Hpost)%IH.
    exists (String a pre), mid, post. simpl. by rewrite Ea.
Qed.

Lemma re_search_first_to_last pre mid post :
  contains "{" pre = false →
  contains "}" post = false →
  re_search (pre ++ "{" ++ mid ++ "}" ++ post) = Some ("{" ++ mid ++ "}").
Proof.
  intros Hpre Hpost. induction pre as [|a pre IH]; simpl.
  - pose proof (upto_last_close_greedy mid post Hpost) as H. simpl in H. by rewrite H.
  - simpl in Hpre. apply orb_false_iff in Hpre as [-> Hpre]. by apply IH.
Qed.

(** [re_search] finds nothing exactly when no [{] of the text is followed by
    a [}]. *)
Lemma re_search_None text :
  re_search text = None ↔ ∀ pre mid post, text ≠ pre ++ "{" ++ mid ++ "}" ++ post.
Proof.
  split.
  - intros H pre mid post ->. revert H. induction pre as [|a pre IH]; simpl.
    + destruct (upto_last_close (mid ++ String "}" post)) eqn:E; [done|].
      apply upto_last_close_None in E. rewrite contains_app in E. simpl in E.
      by rewrite orb_true_r in E.
    + destruct (Ascii.eqb a "{"); [|done].
      destruct (upto_last_close _) eqn:E; [done|].
      apply upto_last_close_None in E. rewrite !contains_app in E. simpl in E.
      rewrite contains_app in E. simpl in E. by rewrite !orb_true_r in E.
  - intros H. destruct (re_search text) as [m|] eqn:E; [|done].
    apply re_search_Some in E as (pre & mid & post & -> & _). by destruct (H pre mid post).
Qed.

(** ** Runs of call_gemini_api *)

Lemma call_gemini_api_no_key w image_data st :
  is_set (GEMINI_API_KEY w) = false →
  call_gemini_api w image_data st = (inr credential_missing, st).
Proof. intros H. unfold call_gemini_api. by rewrite H. Qed.

Lemma call_gemini_api_undecodable w image_data part e st :
  is_set (GEMINI_API_KEY w) = true →
  image_b64 image_data = inr part →
  b64decode w part = inl e →
  call_gemini_api w image_data st = (inl e, st).
Proof.
  intros Hkey Hpart He. unfold call_gemini_api, bind, lift.
  by rewrite Hkey, Hpart, He.
Qed.

Lemma call_gemini_api_model_fails w image_data part image_bytes e st :
  is_set (GEMINI_API_KEY w) = true →
  image_b64 image_data = inr part →
  b64decode w part = inr image_bytes →
  generate_content w prompt "image/jpeg" image_bytes = inl e →
  call_gemini_api w image_data st = (inr (api_error w e), called st image_bytes).
Proof.
  intros Hkey Hpart Hbytes He.
  unfold call_gemini_api, bind, lift, try_except, model_generate_content.
  by rewrite Hkey, Hpart, Hbytes, He.
Qed.

Lemma call_gemini_api_reply w image_data part image_bytes text st :
  is_set (GEMINI_API_KEY w) = true →
  image_b64 image_data = inr part →
  b64decode w part = inr image_bytes →
  generate_content w prompt "image/jpeg" image_bytes = inr text →
  call_gemini_api w image_data st = (inr (interpret w text), called st image_bytes).
Proof.
  intros Hkey Hpart Hbytes Htext.
  unfold call_gemini_api, bind, lift, try_except, model_generate_content, interpret.
  rewrite Hkey, Hpart, Hbytes, Htext. simpl.
  by destruct (read_reply w text).
Qed.

(** ** Runs of analyze_food *)

Lemma lookup_Some_truthy (d : gmap string JValue) key v :
  d !! key = Some v → truthy (JDict d) = true.
Proof.
  intros H. simpl. rewrite bool_decide_eq_false_2; [done|].
  intros ->%map_size_empty_iff. by rewrite lookup_empty in H.
Qed.

(** A body with a data URI in [image] reaches [call_gemini_api]; what the
    call returns is wrapped, what it raises becomes a 500. *)
Lemma analyze_food_delegates w request (d : gmap string JValue) image_data st :
  get_json request = inr (JDict d) →
  d !! "image" = Some (JStr image_data) →
  String.prefix "data:image/" image_data = true →
  analyze_food w request st =
  match call_gemini_api w image_data st with
  | (inr result, st') => (inr {| body := SuccessBody result; status := 200 |}, st')
  | (inl e, st') =>
      (inr {| body := ErrorBody ("分析中にエラーが発生しました: " ++ str_exn w e);
              status := 500 |}, st')
  end.
Proof.
  intros Hjson Himage Hprefix.
  unfold analyze_food, try_except, bind, lift, ret.
  rewrite Hjson, (lookup_Some_truthy d "image" _ Himage). simpl.
  rewrite Himage, bool_decide_eq_false_2 by done. simpl.
  rewrite Hprefix. simpl.
  by destruct (call_gemini_api w image_data st) as [[e|result] st'].
Qed.

(** ** The vision call before the model is reached *)

(** C1 as the code has it: the payload is decoded before the [try] of
    [call_gemini_api], so with a credential configured a payload that fails to
    decode makes the call raise, without reaching the model; the endpoint's
    handler turns the exception into a 500 response that carries its text. *)
Theorem decode_failure_escapes w request (d : gmap string JValue) image_data part e st :
  is_set (GEMINI_API_KEY w) = true →
  image_b64 image_data = inr part →
  b64decode w part = inl e →
  call_gemini_api w image_data st = (inl e, st) ∧
  (get_json request = inr (JDict d) →
   d !! "image" = Some (JStr image_data) →
   String.prefix "data:image/" image_data = true →
   analyze_food w request st =
   (inr {| body := ErrorBody ("分析中にエラーが発生しました: " ++ str_exn w e);
           status := 500 |}, st)).
Proof.
  intros Hkey Hpart He.
  pose proof (call_gemini_api_undecodable w image_data part e st Hkey Hpart He) as Hcall.
  split; [done|]. intros Hjson Himage Hprefix.
  by rewrite (analyze_food_delegates w request d image_data st), Hcall.
Qed.

Lemma decode_failure_escapes_witness :
  let w := example_world (Some "key") (inr "") (λ _, inl (External "Expecting value")) in
  let image_data := "data:image/png;base64,AAA" in
  call_gemini_api w image_data fresh = (inl (External "Incorrect padding"), fresh) ∧
  analyze_food w (post image_data) fresh =
  (inr {| body := ErrorBody "分析中にエラーが発生しました: Incorrect padding"; status := 500 |},
   fresh).
Proof.
  intros w image_data.
  destruct (decode_failure_escapes w (post image_data) {[ "image" := JStr image_data ]}
              image_data "AAA" (External "Incorrect padding") fresh
              eq_refl eq_refl eq_refl) as [Hcall Hfood].
  split; [exact Hcall | exact (Hfood eq_refl eq_refl eq_refl)].
Defined.

(** C1 fails as stated: with a key configured and the undecodable payload
    [AAA], [call_gemini_api] raises instead of returning a result. *)
Lemma call_gemini_api_raises_on_bad_payload :
  image_b64 "data:image/png;base64,AAA" = inr "AAA" ∧
  b64decode (example_world (Some "key") (inr "") (λ _, inl (External "Expecting value"))) "AAA"
  = inl (External "Incorrect padding") ∧
  (call_gemini_api (example_world (Some "key") (inr "") (λ _, inl (External "Expecting value")))
     "data:image/png;base64,AAA" fresh).1
  = inl (External "Incorrect padding").
Proof. repeat split. Qed.

(** ** The endpoint's checks *)




(** ** Without a credential *)

(** C6: without a credential the call returns the fixed credential result
    and leaves the state as it was (no model call), and the endpoint wraps it
    in a 200 response. *)
Theorem missing_credential_is_reported w :
  is_set (GEMINI_API_KEY w) = false →
  (∀ image_data st, call_gemini_api w image_data st = (inr credential_missing, st)) ∧
  (∀ request (d : gmap string JValue) image_data st,
     get_json request = inr (JDict d) →
     d !! "image" = Some (JStr image_data) →
     String.prefix "data:image/" image_data = true →
     analyze_food w request st =
     (inr {| body := SuccessBody {| safe := false; detected_food := DFNone;
                                    message := "Gemini APIキーが設定されていません";
                                    details := "" |};
             status := 200 |}, st)).
Proof.
  intros Hkey. split.
  - intros image_data st. by apply call_gemini_api_no_key.
  - intros request d image_data st Hjson Himage Hprefix.
    rewrite (analyze_food_delegates w request d image_data st) by done.
    by rewrite call_gemini_api_no_key.
Qed.

Lemma missing_credential_is_reported_witness :
  let w := example_world None (inr "") (λ _, inl (External "Expecting value")) in
  call_gemini_api w "data:image/jpeg;base64,AAAA" fresh = (inr credential_missing, fresh) ∧
  analyze_food w (post "data:image/jpeg;base64,AAAA") fresh =
  (inr {| body := SuccessBody credential_missing; status := 200 |}, fresh).
Proof.
  intros w. destruct (missing_credential_is_reported w eq_refl) as [Hcall Hfood]. split.
  - apply Hcall.
  - apply (Hfood _ {[ "image" := JStr "data:image/jpeg;base64,AAAA" ]}
             "data:image/jpeg;base64,AAAA"); reflexivity.
Defined.

(** ** The mock classifier *)

Lemma analyze_image_mock_cases image_data st r :
  (analyze_image_mock image_data st).1 = inr r →
  r = {| safe := true; detected_food := DFId "safe_food";
         message := "この食事は妊娠中でも安心してお召し上がりいただけます"; details := "" |}
  ∨ ∃ food_type entry,
      food_type ∈ AVOID_FOODS.*1 ∧
      r = {| safe := false; detected_food := DFId food_type;
             message := Hazard.message entry; details := Hazard.details entry |}.
Proof.
  unfold analyze_image_mock, bind, random_random.
  destruct (_ <? _)%float.
  - unfold random_choice.
    destruct (AVOID_FOODS.*1 !! _) as [food_type|] eqn:Hpick; [|done].
    unfold lift, ret. destruct (lookup_food food_type AVOID_FOODS) as [e|entry]; [done|].
    intros [= <-]. right. exists food_type, entry. split; [|done].
    by eapply list_elem_of_lookup_2.
  - intros [= <-]. by left.
Qed.

Lemma catalog_id_is_hazard food_type :
  food_type ∈ AVOID_FOODS.*1 → denotes_no_hazard (DFId food_type) = false.
Proof.
  intros Hin. unfold denotes_no_hazard. apply negb_false_iff, existsb_exists.
  exists food_type. split; [by apply list_elem_of_In | apply String.eqb_refl].
Qed.

Lemma mock_never_reports_none image_data st r :
  (analyze_image_mock image_data st).1 = inr r → detected_food r ≠ DFNone.
Proof. intros [->|(food_type & entry & _ & ->)]%analyze_image_mock_cases; done. Qed.

Lemma analyze_image_mock_returns image_data st :
  ∃ r, (analyze_image_mock image_data st).1 = inr r.
Proof.
  unfold analyze_image_mock, bind, random_random.
  destruct (_ <? _)%float; [|by eexists].
  unfold random_choice.
  destruct (AVOID_FOODS.*1 !! _) as [food_type|] eqn:Hpick.
  - apply list_elem_of_lookup_2 in Hpick.
    assert (∃ entry, lookup_food food_type AVOID_FOODS = inr entry) as [entry Hentry].
    { simpl in Hpick. repeat (apply elem_of_cons in Hpick as [->|Hpick]; [by eexists|]).
      by apply elem_of_nil in Hpick. }
    unfold lift, ret. rewrite Hentry. by eexists.
  - apply lookup_ge_None in Hpick. simpl in Hpick.
    pose proof (Nat.mod_upper_bound (pick (rng st) (cursor (rng st))) 5). lia.
Qed.

(** C2 as the code has it: the endpoint never falls back to a classifier.
    Without a credential a valid request is answered 200 with the fixed
    credential result and the state is untouched (no model call, no random
    draw); when the model call fails the answer is 200 with the API-error
    result, after the one call that was attempted. Neither result is one the
    mock classifier can produce. *)
Theorem no_fallback_classifier w request (d : gmap string JValue) image_data st :
  get_json request = inr (JDict d) →
  d !! "image" = Some (JStr image_data) →
  String.prefix "data:image/" image_data = true →
  (is_set (GEMINI_API_KEY w) = false →
   analyze_food w request st =
   (inr {| body := SuccessBody credential_missing; status := 200 |}, st)) ∧
  (∀ part image_bytes e,
     is_set (GEMINI_API_KEY w) = true →
     image_b64 image_data = inr part →
     b64decode w part = inr image_bytes →
     generate_content w prompt "image/jpeg" image_bytes = inl e →
     analyze_food w request st =
     (inr {| body := SuccessBody (api_error w e); status := 200 |}, called st image_bytes)) ∧
  (∀ image_data' st' e,
     (analyze_image_mock image_data' st').1 ≠ inr credential_missing ∧
     (analyze_image_mock image_data' st').1 ≠ inr (api_error w e)).
Proof.
  intros Hjson Himage Hprefix. split; [|split].
  - intros Hkey. rewrite (analyze_food_delegates w request d image_data st) by done.
    by rewrite call_gemini_api_no_key.
  - intros part image_bytes e Hkey Hpart Hbytes He.
    rewrite (analyze_food_delegates w request d image_data st) by done.
    by rewrite (call_gemini_api_model_fails w image_data part image_bytes e st).
  - intros image_data' st' e. split; intros H%mock_never_reports_none; done.
Qed.

Lemma no_fallback_classifier_witness :
  analyze_food (example_world None (inr "") (λ _, inl (External "Expecting value")))
    (post "data:image/jpeg;base64,AAAA") fresh =
  (inr {| body := SuccessBody credential_missing; status := 200 |}, fresh) ∧
  analyze_food (example_world (Some "key") (inl (External "503 Service Unavailable"))
                  (λ _, inl (External "Expecting value")))
    (post "data:image/jpeg;base64,AAAA") fresh =
  (inr {| body := SuccessBody
            {| safe := false; detected_food := DFNone;
               message := "Gemini API呼び出しエラー: 503 Service Unavailable";
               details := "" |};
          status := 200 |},
   called fresh [Byte.x00; Byte.x00; Byte.x00]).
Proof.
  split.
  - apply (proj1 (no_fallback_classifier _ (post "data:image/jpeg;base64,AAAA")
                    {[ "image" := JStr "data:image/jpeg;base64,AAAA" ]}
                    "data:image/jpeg;base64,AAAA" fresh eq_refl eq_refl eq_refl)).
    reflexivity.
  - apply (proj1 (proj2 (no_fallback_classifier
                    (example_world (Some "key") (inl (External "503 Service Unavailable"))
                       (λ _, inl (External "Expecting value")))
                    (post "data:image/jpeg;base64,AAAA")
                    {[ "image" := JStr "data:image/jpeg;base64,AAAA" ]}
                    "data:image/jpeg;base64,AAAA" fresh eq_refl eq_refl eq_refl))
             "AAAA" [Byte.x00; Byte.x00; Byte.x00] (External "503 Service Unavailable"));
      reflexivity.
Defined.

(** C2 fails as stated: without a credential the endpoint answers with a
    result whose [detected_food] is None, which the fallback classifier never
    returns. *)
Lemma no_key_is_not_a_fallback :
  analyze_food (example_world None (inr "") (λ _, inl (External "Expecting value")))
    (post "data:image/jpeg;base64,AAAA") fresh =
  (inr {| body := SuccessBody credential_missing; status := 200 |}, fresh) ∧
  detected_food credential_missing = DFNone ∧
  (∀ image_data st r, (analyze_image_mock image_data st).1 = inr r → detected_food r ≠ DFNone).
Proof. split; [reflexivity | split; [reflexivity | apply mock_never_reports_none]]. Qed.

(** ** The verdict *)

Lemma mapR_length {A B} (g : A → Result B) xs ys :
  mapR g xs = inr ys → length ys = length xs.
Proof.
  revert ys. induction xs as [|x xs IH]; simpl; intros ys.
  - by intros [= <-].
  - destruct (g x) as [e|y]; [done|]. simpl.
    destruct (mapR g xs) as [e|ys']; [done|]. simpl.
    intros [= <-]. simpl. by rewrite (IH ys').
Qed.

Lemma verdict_cases w foods r :
  verdict w foods = inr r →
  r = no_risk ∨ ∃ names lines, names ≠ [] ∧ r = risk_found names lines.
Proof.
  unfold verdict. destruct (iterate foods) as [e|items]; [done|]. simpl.
  destruct (filterR is_risky items) as [e|risky_foods]; [done|]. simpl.
  case_bool_decide as Hlen.
  - intros [= <-]. by left.
  - destruct (mapR _ risky_foods) as [e|detected] eqn:Hdetected; [done|]. simpl.
    destruct (mapR (detail_line w) risky_foods) as [e|lines]; [done|]. simpl.
    intros [= <-]. right. exists detected, lines. split; [|done].
    apply mapR_length in Hdetected. intros ->. simpl in Hdetected. lia.
Qed.

Lemma read_reply_cases w text r :
  read_reply w text = inr r →
  r = extraction_failed text ∨ (∃ e foods_json, r = parse_error w e foods_json) ∨
  r = no_risk ∨ ∃ names lines, names ≠ [] ∧ r = risk_found names lines.
Proof.
  unfold read_reply. destruct (re_search text) as [foods_json|].
  - destruct (bindR _ _) as [e|foods].
    + intros [= <-]. right. left. by exists e, foods_json.
    + intros H%verdict_cases. by do 2 right.
  - intros [= <-]. by left.
Qed.

Lemma call_gemini_api_cases w image_data st r :
  (call_gemini_api w image_data st).1 = inr r →
  r = credential_missing ∨ (∃ e, r = api_error w e) ∨ ∃ text, read_reply w text = inr r.
Proof.
  unfold call_gemini_api, bind, lift, try_except, model_generate_content, ret.
  destruct (is_set _); simpl; [|intros [= <-]; by left].
  destruct (image_b64 image_data) as [e|part]; [done|].
  destruct (b64decode w part) as [e|image_bytes]; [done|].
  destruct (generate_content _ _ _ _) as [e|text]; simpl.
  - intros [= <-]. right. left. by exists e.
  - destruct (read_reply w text) as [e|r'] eqn:Hreply; simpl; intros [= <-].
    + right. left. by exists e.
    + right. right. by exists text.
Qed.

Lemma invariant_error text e w foods_json :
  invariant credential_missing ∧ invariant (extraction_failed text) ∧
  invariant (parse_error w e foods_json) ∧ invariant (api_error w e).
Proof. repeat split; simpl; intros; try done; by destruct_and?. Qed.

Lemma invariant_read_reply w text r : read_reply w text = inr r → invariant r.
Proof.
  intros [->|[(e & foods_json & ->)|[->|(names & lines & Hnames & ->)]]]%read_reply_cases.
  - apply (invariant_error text (External "") w "").
  - apply (invariant_error text e w foods_json).
  - by split.
  - split; simpl; [done|]. intros [Hlen _]. apply bool_decide_eq_true in Hlen.
    by destruct names.
Qed.

(** C3: every result of the mock classifier, of the vision call and of the
    interpretation of a reply is safe exactly when its [detected_food]
    denotes no hazard and its [details] are empty. *)
Theorem results_keep_invariant w image_data text st r :
  (analyze_image_mock image_data st).1 = inr r ∨
  (call_gemini_api w image_data st).1 = inr r ∨
  read_reply w text = inr r ∨
  interpret w text = r →
  invariant r.
Proof.
  intros [Hmock|[Hcall|[Hreply|Hinterpret]]].
  - apply analyze_image_mock_cases in Hmock as [->|(food_type & entry & Hin & ->)].
    + by split.
    + split; [done|]. intros [H _]. cbn [detected_food] in H.
      by rewrite catalog_id_is_hazard in H.
  - apply call_gemini_api_cases in Hcall as [->|[[e ->]|[text' Hreply]]].
    + apply (invariant_error "" (External "") w "").
    + apply (invariant_error "" e w "").
    + by apply invariant_read_reply in Hreply.
  - by apply invariant_read_reply in Hreply.
  - subst r. unfold interpret. destruct (read_reply w text) as [e|r] eqn:Hreply.
    + apply (invariant_error "" e w "").
    + by apply invariant_read_reply in Hreply.
Qed.

Lemma results_keep_invariant_witness :
  invariant (risk_found [JStr "salmon"] ["salmon: parasites"]) ∧
  invariant {| safe := true; detected_food := DFId "safe_food";
               message := "この食事は妊娠中でも安心してお召し上がりいただけます";
               details := "" |}.
Proof.
  split.
  - apply (results_keep_invariant
             (example_world (Some "key") (inr salmon_text) (parses salmon_json_text salmon_json))
             "data:image/jpeg;base64,AAAA" salmon_text fresh).
    right. left. vm_compute. reflexivity.
  - apply (results_keep_invariant
             (example_world None (inr "") (λ _, inl (External "Expecting value")))
             "data:image/jpeg;base64,AAAA" "" fresh).
    left. vm_compute. reflexivity.
Defined.

(** ** Interpretation of a reply that parses *)

Lemma is_risky_field item : well_formed item = true → is_risky item = inr (truthy (field "risk" item)).
Proof. by destruct item. Qed.

Lemma filterR_flagged items :
  forallb well_formed items = true → filterR is_risky items = inr (flagged items).
Proof.
  induction items as [|item items IH]; simpl; [done|].
  intros [Hitem Hitems]%andb_true_iff.
  rewrite (is_risky_field item Hitem), (IH Hitems). simpl.
  by destruct (truthy (field "risk" item)).
Qed.

Lemma flagged_well_formed items item :
  forallb well_formed items = true →
  item ∈ flagged items →
  ∃ (f : gmap string JValue) name d,
    item = JDict f ∧ f !! "name" = Some name ∧ f !! "details" = Some d.
Proof.
  intros Hitems [Hin Hrisk]%list_elem_of_In%filter_In.
  rewrite forallb_forall in Hitems. specialize (Hitems item Hin).
  destruct item as [| | | | | |f]; try done.
  unfold well_formed in Hitems. rewrite Hrisk in Hitems. simpl in Hitems.
  apply andb_true_iff in Hitems as [[name Hname]%bool_decide_eq_true [d Hd]%bool_decide_eq_true].
  by exists f, name, d.
Qed.

Lemma mapR_total {A B} (g : A → Result B) (h : A → B) xs :
  (∀ x, x ∈ xs → g x = inr (h x)) → mapR g xs = inr (h <$> xs).
Proof.
  induction xs as [|x xs IH]; simpl; [done|]. intros Hg.
  rewrite (Hg x) by left. simpl. rewrite IH; [done|].
  intros y Hy. apply Hg. by right.
Qed.

Lemma verdict_well_formed w items :
  forallb well_formed items = true →
  verdict w (JList items) =
  inr match flagged items with
      | [] => no_risk
      | _ => risk_found (names_of (flagged items)) (lines_of w (flagged items))
      end.
Proof.
  intros Hitems. unfold verdict. simpl. rewrite (filterR_flagged items Hitems). simpl.
  pose proof (flagged_well_formed items) as Hflagged.
  destruct (flagged items) as [|item risky] eqn:E; [done|].
  rewrite bool_decide_eq_false_2 by done.
  rewrite (mapR_total _ (field "name")), (mapR_total _ (λ item,
    format_value w (field "name" item) ++ ": " ++ format_value w (field "details" item))).
  - done.
  - intros x (f & name & d & -> & Hname & Hd)%Hflagged; [|done].
    unfold detail_line. simpl. by rewrite Hname, Hd.
  - intros x (f & name & d & -> & Hname & Hd)%Hflagged; [|done].
    simpl. by rewrite Hname.
Qed.

(** C4 as the code has it: when the reply's JSON parses to an object whose
    [foods] (the empty list if absent) is a list of objects in which every
    item with a truthy [risk] has a [name] and [details], the result is the
    reassurance if no item is flagged, and otherwise the risk result with the
    flagged names in order and one line per flagged item. An item is flagged
    when its [risk] is truthy. *)
Theorem interpret_well_formed_foods w text foods_json (o : gmap string JValue) items :
  re_search text = Some foods_json →
  json_loads w foods_json = inr (JDict o) →
  default (JList []) (o !! "foods") = JList items →
  forallb well_formed items = true →
  interpret w text =
  match flagged items with
  | [] => {| safe := true; detected_food := DFNames [];
             message := "この食事は妊娠中でも安心してお召し上がりいただけます";
             details := "" |}
  | _ => {| safe := false; detected_food := DFNames (names_of (flagged items));
            message := "リスクがある食品が含まれています。詳細をご確認ください。";
            details := String.concat nl (lines_of w (flagged items)) |}
  end.
Proof.
  intros Hsearch Hjson Hfoods Hitems. unfold interpret, read_reply.
  rewrite Hsearch, Hjson. simpl. rewrite Hfoods, (verdict_well_formed w items Hitems).
  by destruct (flagged items).
Qed.

Lemma interpret_well_formed_foods_witness :
  interpret (example_world (Some "key") (inr salmon_text) (parses salmon_json_text salmon_json))
    salmon_text =
  {| safe := false; detected_food := DFNames [JStr "salmon"];
     message := "リスクがある食品が含まれています。詳細をご確認ください。";
     details := "salmon: parasites" |}.
Proof.
  apply (interpret_well_formed_foods
           (example_world (Some "key") (inr salmon_text) (parses salmon_json_text salmon_json))
           salmon_text salmon_json_text
           {[ "foods" := JList [
                JDict (<[ "name" := JStr "salmon" ]> (<[ "risk" := JBool true ]>
                         {[ "details" := JStr "parasites" ]}));
                JDict (<[ "name" := JStr "salad" ]> (<[ "risk" := JBool false ]>
                         {[ "details" := JStr "" ]})) ] ]}
           _ eq_refl eq_refl eq_refl eq_refl).
Defined.

(** C4 fails as stated: the reply [nameless_text] parses to an object with
    one flagged item, yet the result is neither the reassurance nor a risk
    result with a list of names: [detected_food] is None and the message is
    the API-call error. *)
Lemma flagged_item_without_name :
  re_search nameless_text = Some nameless_text ∧
  json_loads (example_world (Some "key") (inr nameless_text) (parses nameless_text nameless_json))
    nameless_text = inr nameless_json ∧
  interpret (example_world (Some "key") (inr nameless_text) (parses nameless_text nameless_json))
    nameless_text =
  {| safe := false; detected_food := DFNone;
     message := "Gemini API呼び出しエラー: 'name'"; details := "" |}.
Proof. split; [|split]; vm_compute; reflexivity. Qed.

(** ** Replies without JSON, and JSON that does not parse *)

(** C5 as the code has it: a reply in which no [{] is followed by a [}]
    gives the extraction failure with the whole reply in [details]; otherwise
    the substring taken runs from the first [{] to the last [}] of the reply
    (greedy, whether or not the braces pair up), and if [json.loads] fails on
    it, or gives something that is not an object, the result is the parse
    error with that substring in [details]. *)
Theorem interpret_extraction w text :
  ((∀ pre mid post, text ≠ pre ++ "{" ++ mid ++ "}" ++ post) →
   interpret w text =
   {| safe := false; detected_food := DFNone;
      message := "GeminiのレスポンスからJSONを抽出できませんでした"; details := text |}) ∧
  (∀ pre mid post,
     text = pre ++ "{" ++ mid ++ "}" ++ post →
     contains "{" pre = false →
     contains "}" post = false →
     re_search text = Some ("{" ++ mid ++ "}")) ∧
  (∀ foods_json,
     re_search text = Some foods_json →
     (∀ e, json_loads w foods_json = inl e →
           interpret w text =
           {| safe := false; detected_food := DFNone;
              message := "GeminiのJSONパースエラー: " ++ str_exn w e;
              details := foods_json |}) ∧
     (∀ v, json_loads w foods_json = inr v →
           (∀ d, v ≠ JDict d) →
           interpret w text = parse_error w (AttributeError (type_name v) "get") foods_json)).
Proof.
  split; [|split].
  - intros H%re_search_None. unfold interpret, read_reply. by rewrite H.
  - intros pre mid post -> Hpre Hpost. by apply re_search_first_to_last.
  - intros foods_json Hsearch. split.
    + intros e He. unfold interpret, read_reply. by rewrite Hsearch, He.
    + intros v Hv Hnot. unfold interpret, read_reply. rewrite Hsearch, Hv.
      destruct v as [| | | | | |d]; try done. by destruct (Hnot d).
Qed.

Lemma interpret_extraction_witness :
  let w := example_world (Some "key") (inr "no json here")
             (λ _, inl (External "Expecting property name")) in
  interpret w "no json here" =
  {| safe := false; detected_food := DFNone;
     message := "GeminiのレスポンスからJSONを抽出できませんでした";
     details := "no json here" |} ∧
  re_search "see {a} or {b}." = Some "{a} or {b}" ∧
  interpret w "see {a} or {b}." =
  {| safe := false; detected_food := DFNone;
     message := "GeminiのJSONパースエラー: Expecting property name";
     details := "{a} or {b}" |}.
Proof.
  intros w. split; [|split].
  - apply (proj1 (interpret_extraction w "no json here")).
    apply re_search_None. reflexivity.
  - apply (proj1 (proj2 (interpret_extraction w "see {a} or {b}.")) "see " "a} or {b" ".");
      reflexivity.
  - apply (proj1 (proj2 (proj2 (interpret_extraction w "see {a} or {b}.")) "{a} or {b}" eq_refl)
             (External "Expecting property name")).
    reflexivity.
Defined.

(** C5 fails as stated: on a reply with two objects the substring taken is
    not the first balanced one but everything from the first opening brace to
    the last closing one. *)
Lemma greedy_match_is_not_balanced :
  re_search "see {a} or {b}." = Some "{a} or {b}" ∧
  first_balanced_object "see {a} or {b}." = Some "{a}".
Proof. split; reflexivity. Qed.

(** ** Flagged items without a name or details *)

Lemma mapR_inr {A B} (g : A → Result B) xs ys x :
  mapR g xs = inr ys → x ∈ xs → ∃ y, g x = inr y.
Proof.
  revert ys. induction xs as [|x' xs IH]; simpl; intros ys Hmap Hin.
  - by apply elem_of_nil in Hin.
  - destruct (g x') as [e|y] eqn:Hy; [done|]. simpl in Hmap.
    destruct (mapR g xs) as [e|ys']; [done|].
    apply elem_of_cons in Hin as [->|Hin]; [by exists y | by apply (IH ys')].
Qed.

Lemma filterR_keeps {A} (p : A → Result bool) xs ys x :
  filterR p xs = inr ys → x ∈ xs → p x = inr true → x ∈ ys.
Proof.
  revert ys. induction xs as [|x' xs IH]; simpl; intros ys Hfilter Hin Hx.
  - by apply elem_of_nil in Hin.
  - destruct (p x') as [e|b] eqn:Hb; [done|]. simpl in Hfilter.
    destruct (filterR p xs) as [e|ys']; [done|]. simpl in Hfilter.
    injection Hfilter as <-.
    apply elem_of_cons in Hin as [->|Hin].
    + rewrite Hx in Hb. injection Hb as <-. by left.
    + specialize (IH ys' eq_refl Hin Hx). destruct b; [by right | done].
Qed.

Lemma verdict_incomplete w items :
  existsb flagged_incomplete items = true → ∃ e, verdict w (JList items) = inl e.
Proof.
  intros (item & Hin%list_elem_of_In & Hitem)%existsb_exists.
  destruct item as [| | | | | |f]; try done. simpl in Hitem.
  apply andb_true_iff in Hitem as [Hrisk Hlacks%negb_true_iff].
  unfold verdict. simpl.
  destruct (filterR is_risky items) as [e|risky_foods] eqn:Hfilter; [by exists e|]. simpl.
  assert (JDict f ∈ risky_foods) as Hrisky.
  { apply (filterR_keeps _ _ _ _ Hfilter Hin). unfold is_risky. simpl. by rewrite Hrisk. }
  rewrite bool_decide_eq_false_2 by (intros Hlen; destruct risky_foods; [by apply elem_of_nil in Hrisky | done]).
  destruct (mapR _ risky_foods) as [e|detected] eqn:Hnames; [by exists e|]. simpl.
  destruct (mapR (detail_line w) risky_foods) as [e|lines] eqn:Hlines; [by exists e|].
  destruct (mapR_inr _ _ _ _ Hnames Hrisky) as [name Hname].
  destruct (mapR_inr _ _ _ _ Hlines Hrisky) as [line Hline].
  unfold detail_line in Hline. simpl in Hname, Hline.
  destruct (f !! "name") as [?|] eqn:E1; [|done].
  destruct (f !! "details") as [?|] eqn:E2; [|done].
  rewrite !bool_decide_eq_true_2 in Hlacks by done. done.
Qed.

(** C10: when the JSON parses to an object whose [foods] is a list with a
    flagged item that lacks [name] or [details], the body of the [try] raises
    and [call_gemini_api] returns the API-call error built from the exception,
    with empty [details]; the same run with a model that fails with this
    exception gives the same result and the same state. *)
Theorem incomplete_flagged_item_is_api_error
    w image_data part image_bytes text foods_json (o : gmap string JValue) items st :
  is_set (GEMINI_API_KEY w) = true →
  image_b64 image_data = inr part →
  b64decode w part = inr image_bytes →
  generate_content w prompt "image/jpeg" image_bytes = inr text →
  re_search text = Some foods_json →
  json_loads w foods_json = inr (JDict o) →
  o !! "foods" = Some (JList items) →
  existsb flagged_incomplete items = true →
  ∃ e,
    read_reply w text = inl e ∧
    call_gemini_api w image_data st =
    (inr {| safe := false; detected_food := DFNone;
            message := "Gemini API呼び出しエラー: " ++ str_exn w e; details := "" |},
     called st image_bytes) ∧
    call_gemini_api (with_reply w (inl e)) image_data st = call_gemini_api w image_data st.
Proof.
  intros Hkey Hpart Hbytes Htext Hsearch Hjson Hfoods Hitems.
  destruct (verdict_incomplete w items Hitems) as [e He].
  assert (read_reply w text = inl e) as Hreply.
  { unfold read_reply. rewrite Hsearch, Hjson. simpl. by rewrite Hfoods. }
  exists e. split; [done|].
  rewrite (call_gemini_api_reply w image_data part image_bytes text st) by done.
  unfold interpret. rewrite Hreply. split; [done|].
  by rewrite (call_gemini_api_model_fails (with_reply w (inl e)) image_data part image_bytes e st).
Qed.

Lemma incomplete_flagged_item_is_api_error_witness :
  let w := example_world (Some "key") (inr nameless_text) (parses nameless_text nameless_json) in
  ∃ e,
    read_reply w nameless_text = inl e ∧
    call_gemini_api w "data:image/jpeg;base64,AAAA" fresh =
    (inr {| safe := false; detected_food := DFNone;
            message := "Gemini API呼び出しエラー: " ++ str_exn w e; details := "" |},
     called fresh [Byte.x00; Byte.x00; Byte.x00]) ∧
    call_gemini_api (with_reply w (inl e)) "data:image/jpeg;base64,AAAA" fresh =
    call_gemini_api w "data:image/jpeg;base64,AAAA" fresh.
Proof.
  intros w.
  apply (incomplete_flagged_item_is_api_error w "data:image/jpeg;base64,AAAA" "AAAA"
           [Byte.x00; Byte.x00; Byte.x00] nameless_text nameless_text
           {[ "foods" := JList [JDict {[ "risk" := JBool true ]}] ]}
           [JDict {[ "risk" := JBool true ]}] fresh); reflexivity.
Defined.

(** ** Determinism of the interpretation *)

Lemma interpret_same_libraries w1 w2 text :
  json_loads w1 = json_loads w2 →
  str_value w1 = str_value w2 →
  str_exn w1 = str_exn w2 →
  interpret w1 text = interpret w2 text.
Proof.
  destruct w1, w2. simpl. intros -> -> ->. reflexivity.
Qed.

(** C9: the result of a run in which the model replied [text] is fixed by
    [text]. Two runs may differ in the image, the credential, the model, the
    calls made before and the state of the random generator: with the same
    JSON and [str] libraries they return the same result, and neither run
    draws from the generator. *)
Theorem reply_determines_result
    w1 w2 image1 image2 part1 part2 bytes1 bytes2 st1 st2 text :
  json_loads w1 = json_loads w2 →
  str_value w1 = str_value w2 →
  str_exn w1 = str_exn w2 →
  is_set (GEMINI_API_KEY w1) = true →
  image_b64 image1 = inr part1 →
  b64decode w1 part1 = inr bytes1 →
  generate_content w1 prompt "image/jpeg" bytes1 = inr text →
  is_set (GEMINI_API_KEY w2) = true →
  image_b64 image2 = inr part2 →
  b64decode w2 part2 = inr bytes2 →
  generate_content w2 prompt "image/jpeg" bytes2 = inr text →
  (call_gemini_api w1 image1 st1).1 = inr (interpret w1 text) ∧
  (call_gemini_api w1 image1 st1).1 = (call_gemini_api w2 image2 st2).1 ∧
  rng (call_gemini_api w1 image1 st1).2 = rng st1 ∧
  rng (call_gemini_api w2 image2 st2).2 = rng st2.
Proof.
  intros Hjson Hvalue Hexn Hkey1 Hpart1 Hbytes1 Htext1 Hkey2 Hpart2 Hbytes2 Htext2.
  rewrite (call_gemini_api_reply w1 image1 part1 bytes1 text st1) by done.
  rewrite (call_gemini_api_reply w2 image2 part2 bytes2 text st2) by done.
  simpl. by rewrite (interpret_same_libraries w1 w2 text).
Qed.

Lemma reply_determines_result_witness :
  let w1 := example_world (Some "key") (inr salmon_text) (parses salmon_json_text salmon_json) in
  let w2 := example_world (Some "another key") (inr salmon_text)
              (parses salmon_json_text salmon_json) in
  (call_gemini_api w1 "data:image/jpeg;base64,AAAA" fresh).1 = inr (interpret w1 salmon_text) ∧
  (call_gemini_api w1 "data:image/jpeg;base64,AAAA" fresh).1 =
  (call_gemini_api w2 "AAAA" (advance (called fresh []))).1 ∧
  rng (call_gemini_api w1 "data:image/jpeg;base64,AAAA" fresh).2 = rng fresh ∧
  rng (call_gemini_api w2 "AAAA" (advance (called fresh []))).2 = rng (advance (called fresh [])).
Proof.
  intros w1 w2.
  apply (reply_determines_result w1 w2 "data:image/jpeg;base64,AAAA" "AAAA" "AAAA" "AAAA"
           [Byte.x00; Byte.x00; Byte.x00] [Byte.x00; Byte.x00; Byte.x00]
           fresh (advance (called fresh [])) salmon_text); reflexivity.
Defined.

(** * Further properties of the code *)

(** ** The catalog *)

Lemma lookup_food_In food_type table entry :
  lookup_food food_type table = inr entry → (food_type, entry) ∈ table.
Proof.
  induction table as [|[k h] table IH]; simpl; [done|].
  destruct (String.eqb k food_type) eqn:E.
  - apply String.eqb_eq in E as ->. intros [= ->]. by left.
  - intros H%IH. by right.
Qed.

Lemma lookup_food_missing food_type table e :
  lookup_food food_type table = inl e → e = KeyError food_type ∧ food_type ∉ table.*1.
Proof.
  induction table as [|[k h] table IH]; simpl.
  - intros [= <-]. split; [done | apply not_elem_of_nil].
  - destruct (String.eqb k food_type) eqn:E; [done|].
    apply String.eqb_neq in E. intros [-> Hnot]%IH. split; [done|].
    intros Hin. simpl in Hin. apply elem_of_cons in Hin as [->|Hin]; [by destruct E | by destruct Hnot].
Qed.

(** X14: indexing the catalog by an id gives the entry listed under that id
    and nothing else (the ids are distinct), every entry has keywords, and an
    unknown id raises KeyError. *)
Theorem lookup_food_catalog food_type :
  (∀ entry, lookup_food food_type AVOID_FOODS = inr entry ↔ (food_type, entry) ∈ AVOID_FOODS) ∧
  (lookup_food food_type AVOID_FOODS = inl (KeyError food_type) ↔ food_type ∉ AVOID_FOODS.*1) ∧
  (∀ entry, (food_type, entry) ∈ AVOID_FOODS → Hazard.keywords entry ≠ []).
Proof.
  split; [|split].
  - intros entry. split; [apply lookup_food_In|].
    unfold AVOID_FOODS. intros Hin.
    repeat (apply elem_of_cons in Hin as [[= -> ->]|Hin]; [reflexivity|]).
    by apply elem_of_nil in Hin.
  - split.
    + by intros [_ H]%lookup_food_missing.
    + intros Hnot. destruct (lookup_food food_type AVOID_FOODS) as [e|entry] eqn:E.
      * by apply lookup_food_missing in E as [-> _].
      * apply lookup_food_In in E. destruct Hnot.
        apply list_elem_of_fmap. by exists (food_type, entry).
  - unfold AVOID_FOODS. intros entry Hin.
    repeat (apply elem_of_cons in Hin as [[= -> ->]|Hin]; [done|]).
    by apply elem_of_nil in Hin.
Qed.

(** ** The mock classifier and the catalog endpoint *)

Lemma catalog_pick n :
  ∃ food_type entry,
    AVOID_FOODS.*1 !! (n `mod` length (AVOID_FOODS.*1)) = Some food_type ∧
    lookup_food food_type AVOID_FOODS = inr entry.
Proof.
  pose proof (Nat.mod_upper_bound n (length (AVOID_FOODS.*1))) as Hlt.
  destruct (n `mod` length (AVOID_FOODS.*1)) as [|[|[|[|[|k]]]]];
    [by do 2 eexists.. |]. simpl in Hlt. lia.
Qed.

Lemma analyze_image_mock_run image_data st :
  analyze_image_mock image_data st =
  if (uniform (rng st) (cursor (rng st)) <? 0.3)%float then
    match AVOID_FOODS.*1 !! (pick (rng st) (S (cursor (rng st))) `mod` length (AVOID_FOODS.*1)) with
    | Some food_type =>
        match lookup_food food_type AVOID_FOODS with
        | inr entry => (inr (mock_hazard food_type entry), advance (advance st))
        | inl e => (inl e, advance (advance st))
        end
    | None => (inl IndexError, advance st)
    end
  else (inr mock_safe, advance st).
Proof.
  unfold analyze_image_mock, bind, random_random, random_choice, lift, ret.
  destruct (_ <? _)%float; [|done]. cbn [rng advance cursor pick].
  destruct (AVOID_FOODS.*1 !! _) as [food_type|]; [|done].
  by destruct (lookup_food food_type AVOID_FOODS).
Qed.

(** X1: the mock classifier never raises and never calls the model. Its
    result is the fixed safe verdict, or a category of the catalog with the
    message and the details listed under that same id. *)
Theorem analyze_image_mock_total image_data st :
  ∃ r,
    (analyze_image_mock image_data st).1 = inr r ∧
    calls (analyze_image_mock image_data st).2 = calls st ∧
    (r = mock_safe ∨
     ∃ food_type entry, (food_type, entry) ∈ AVOID_FOODS ∧ r = mock_hazard food_type entry).
Proof.
  rewrite analyze_image_mock_run. destruct (_ <? _)%float.
  - destruct (catalog_pick (pick (rng st) (S (cursor (rng st))))) as (food_type & entry & -> & Hentry).
    rewrite Hentry. exists (mock_hazard food_type entry). split; [done|]. split; [done|].
    right. exists food_type, entry. split; [|done]. by apply lookup_food_In.
  - exists mock_safe. split; [done|]. split; [done|]. by left.
Qed.

(** X3: the first draw decides the verdict: a draw below 0.3 gives a hazard
    and consumes a second draw for the choice of the category; any other draw
    gives the safe verdict and consumes no more. *)
Theorem analyze_image_mock_draws image_data st :
  if (uniform (rng st) (cursor (rng st)) <? 0.3)%float then
    ∃ r, analyze_image_mock image_data st = (inr r, advance (advance st)) ∧ safe r = false
  else
    analyze_image_mock image_data st = (inr mock_safe, advance st).
Proof.
  rewrite analyze_image_mock_run. destruct (_ <? _)%float; [|done].
  destruct (catalog_pick (pick (rng st) (S (cursor (rng st))))) as (food_type & entry & -> & ->).
  by exists (mock_hazard food_type entry).
Qed.

(** With a generator whose draws are all 0 and whose choices are all [i],
    the mock classifier reports the category at position [i]. *)
Lemma mock_picks_index i food_type entry image_data :
  AVOID_FOODS.*1 !! i = Some food_type →
  lookup_food food_type AVOID_FOODS = inr entry →
  (analyze_image_mock image_data
     {| rng := {| uniform := λ _, 0%float; pick := λ _, i; cursor := 0 |}; calls := [] |}).1
  = inr (mock_hazard food_type entry).
Proof.
  intros Hi Hentry. rewrite analyze_image_mock_run. cbn [rng uniform pick cursor].
  change (0 <? 0.3)%float with true. cbn iota.
  rewrite Nat.mod_small by (by apply lookup_lt_Some in Hi).
  by rewrite Hi, Hentry.
Qed.

(** X2: the categories the mock classifier can report are exactly the ids
    that [GET /foods/avoid] lists. *)
Theorem mock_reports_the_listed_categories food_type :
  (∃ image_data st r,
     (analyze_image_mock image_data st).1 = inr r ∧ safe r = false ∧
     detected_food r = DFId food_type)
  ↔ food_type ∈ (avoid_foods get_avoid_foods.1).*1.
Proof.
  split.
  - intros (image_data & st & r & Hr & Hsafe & Hfood).
    apply analyze_image_mock_cases in Hr as [->|(food_type' & entry & Hin & ->)]; [done|].
    by injection Hfood as <-.
  - intros [i Hi]%list_elem_of_lookup_1.
    assert (∃ entry, lookup_food food_type AVOID_FOODS = inr entry) as [entry Hentry].
    { apply list_elem_of_lookup_2 in Hi. simpl in Hi.
      repeat (apply elem_of_cons in Hi as [->|Hi]; [by eexists|]).
      by apply elem_of_nil in Hi. }
    eexists "", _, (mock_hazard food_type entry).
    split; [by apply (mock_picks_index i)|done].
Qed.

(** ** The vision call *)

Lemma append_assoc s t u : (s ++ t) ++ u = s ++ t ++ u.
Proof. induction s as [|a s IH]; simpl; [done | by rewrite IH]. Qed.

Lemma split_head sep s p ps :
  split sep s = p :: ps → contains sep p = false ∧ ∃ post, s = p ++ post.
Proof.
  revert p ps. induction s as [|a s IH]; simpl; intros p ps.
  - intros [= <- <-]. split; [done | by exists ""].
  - destruct (Ascii.eqb a sep) eqn:E.
    + intros [= <- <-]. split; [done | by exists (String a s)].
    + destruct (split sep s) as [|p' ps'] eqn:Es; [by apply split_not_nil in Es|].
      intros [= <- <-]. destruct (IH p' ps' eq_refl) as [Hp' [post ->]].
      split; [simpl; by rewrite E | by exists post].
Qed.

(** X4: taking the second piece of the split never raises, because the
    guard has found a comma. The part taken is a piece of the payload, and
    when the payload has a comma the part has none. *)
Theorem image_b64_returns_a_piece image_data :
  ∃ part,
    image_b64 image_data = inr part ∧
    (contains "," image_data = true → contains "," part = false) ∧
    ∃ pre post, image_data = pre ++ part ++ post.
Proof.
  unfold image_b64. destruct (contains "," image_data) eqn:E.
  - apply contains_true in E as (pre & rest & -> & Hpre).
    rewrite split_at_first by done.
    destruct (split "," rest) as [|part parts] eqn:Es; [by apply split_not_nil in Es|].
    apply split_head in Es as [Hpart [post ->]].
    exists part. split; [done|]. split; [done|].
    exists (pre ++ ","), post. by rewrite append_assoc.
  - exists image_data. split; [done|]. split; [done|].
    exists "", "". simpl. by rewrite append_empty.
Qed.

(** Once the payload is decoded, [call_gemini_api] calls the model and
    returns a result, whatever the model and the JSON library do. *)
Lemma call_gemini_api_decoded w image_data part image_bytes st :
  is_set (GEMINI_API_KEY w) = true →
  image_b64 image_data = inr part →
  b64decode w part = inr image_bytes →
  ∃ r, call_gemini_api w image_data st = (inr r, called st image_bytes).
Proof.
  intros Hkey Hpart Hbytes.
  destruct (generate_content w prompt "image/jpeg" image_bytes) as [e|text] eqn:Hgen.
  - exists (api_error w e). by apply (call_gemini_api_model_fails w image_data part).
  - exists (interpret w text). by apply (call_gemini_api_reply w image_data part).
Qed.

(** X5: the only exception that leaves [call_gemini_api] is the decoder's:
    the call raises [e] exactly when a key is configured and decoding the
    base64 part raises [e]. *)
Theorem call_gemini_api_raises_iff_decode_fails w image_data st e :
  (call_gemini_api w image_data st).1 = inl e ↔
  is_set (GEMINI_API_KEY w) = true ∧
  ∃ part, image_b64 image_data = inr part ∧ b64decode w part = inl e.
Proof.
  split.
  - destruct (image_b64_total image_data) as [part Hpart].
    unfold call_gemini_api, bind, lift, try_except, model_generate_content, ret.
    destruct (is_set _); simpl; [|done]. rewrite Hpart.
    destruct (b64decode w part) as [e'|image_bytes] eqn:Hbytes.
    + intros [= ->]. split; [done|]. by exists part.
    + destruct (generate_content _ _ _ _) as [e'|text]; simpl; [done|].
      by destruct (read_reply w text).
  - intros [Hkey (part & Hpart & He)].
    by rewrite (call_gemini_api_undecodable w image_data part e st).
Qed.

(** X6: a run of [call_gemini_api] never draws from the random generator
    and calls the model at most once. It calls it exactly when a key is
    configured and the payload decodes, with the fixed prompt, the mime type
    image/jpeg whatever the data URI says, and the decoded bytes. *)
Theorem call_gemini_api_calls_the_model_at_most_once w image_data st :
  rng (call_gemini_api w image_data st).2 = rng st ∧
  ((call_gemini_api w image_data st).2 = st ∧
   (is_set (GEMINI_API_KEY w) = false ∨
    ∃ part e, image_b64 image_data = inr part ∧ b64decode w part = inl e)
   ∨
   ∃ part image_bytes,
     is_set (GEMINI_API_KEY w) = true ∧
     image_b64 image_data = inr part ∧
     b64decode w part = inr image_bytes ∧
     calls (call_gemini_api w image_data st).2 =
     (calls st ++ [{| call_prompt := prompt; call_mime_type := "image/jpeg";
                      call_data := image_bytes |}])%list).
Proof.
  destruct (image_b64_total image_data) as [part Hpart].
  destruct (is_set (GEMINI_API_KEY w)) eqn:Hkey.
  - destruct (b64decode w part) as [e|image_bytes] eqn:Hbytes.
    + rewrite (call_gemini_api_undecodable w image_data part e st) by done.
      split; [done|]. left. split; [done|]. right. by exists part, e.
    + destruct (generate_content w prompt "image/jpeg" image_bytes) as [e|text] eqn:Hgen.
      * rewrite (call_gemini_api_model_fails w image_data part image_bytes e st) by done.
        split; [done|]. right. by exists part, image_bytes.
      * rewrite (call_gemini_api_reply w image_data part image_bytes text st) by done.
        split; [done|]. right. by exists part, image_bytes.
  - rewrite call_gemini_api_no_key by done. split; [done|]. left. split; [done|]. by left.
Qed.

(** ** The endpoint *)

(** The three ways a request is answered: an exception before the call (a
    500), a failed check (a 400), or the call of [call_gemini_api]. *)
Lemma analyze_food_cases w request st :
  (∃ e, analyze_food w request st = (inr (server_error w e), st)) ∨
  (∃ error, analyze_food w request st = (inr {| body := ErrorBody error; status := 400 |}, st)) ∨
  ∃ (d : gmap string JValue) image_data,
    get_json request = inr (JDict d) ∧
    d !! "image" = Some (JStr image_data) ∧
    String.prefix "data:image/" image_data = true ∧
    analyze_food w request st =
    match call_gemini_api w image_data st with
    | (inr result, st') => (inr {| body := SuccessBody result; status := 200 |}, st')
    | (inl e, st') => (inr (server_error w e), st')
    end.
Proof.
  destruct (get_json request) as [e|data] eqn:Hjson.
  { left. exists e. unfold analyze_food, try_except, bind, lift, ret. by rewrite Hjson. }
  destruct (truthy data) eqn:Htruthy; cycle 1.
  { right. left. eexists. unfold analyze_food, try_except, bind, lift, ret.
    by rewrite Hjson, Htruthy. }
  destruct data as [|b|z|f|s|l|d]; try done.
  1-3: left; eexists; unfold analyze_food, try_except, bind, lift, ret;
       by rewrite Hjson, Htruthy.
  - destruct (substring_of "image" s) eqn:Hsub.
    + left. eexists. unfold analyze_food, try_except, bind, lift, ret.
      rewrite Hjson, Htruthy. cbn [negb lacks]. by rewrite Hsub.
    + right. left. eexists. unfold analyze_food, try_except, bind, lift, ret.
      rewrite Hjson, Htruthy. cbn [negb lacks]. by rewrite Hsub.
  - destruct (existsb (λ v, match v with JStr s => String.eqb s "image" | _ => false end) l)
      eqn:Hex.
    + left. eexists. unfold analyze_food, try_except, bind, lift, ret.
      rewrite Hjson, Htruthy. cbn [negb lacks]. by rewrite Hex.
    + right. left. eexists. unfold analyze_food, try_except, bind, lift, ret.
      rewrite Hjson, Htruthy. cbn [negb lacks]. by rewrite Hex.
  - destruct (d !! "image") as [v|] eqn:Himage.
    + destruct v as [|b|z|f|image_data|l'|d'].
      1-4,6-7: left; eexists; unfold analyze_food, try_except, bind, lift, ret;
               rewrite Hjson, Htruthy; cbn [negb lacks subscript];
               by rewrite Himage, bool_decide_eq_false_2.
      destruct (String.prefix "data:image/" image_data) eqn:Hprefix.
      * right. right. exists d, image_data. do 3 (split; [done|]).
        by apply (analyze_food_delegates w request d image_data st).
      * right. left. eexists. unfold analyze_food, try_except, bind, lift, ret.
        rewrite Hjson, Htruthy. cbn [negb lacks subscript].
        rewrite Himage, bool_decide_eq_false_2 by done. cbn. by rewrite Hprefix.
    + right. left. eexists. unfold analyze_food, try_except, bind, lift, ret.
      rewrite Hjson, Htruthy. cbn [negb lacks]. by rewrite Himage, bool_decide_eq_true_2.
Qed.

(** X7: the endpoint never lets an exception escape. Every request gets a
    response whose status is 200, 400 or 500, and the status is 200 exactly
    when the body is the success body with a result. *)
Theorem analyze_food_always_responds w request st :
  ∃ response,
    (analyze_food w request st).1 = inr response ∧
    (status response = 200 ∨ status response = 400 ∨ status response = 500)%Z ∧
    (status response = 200%Z ↔ ∃ result, body response = SuccessBody result).
Proof.
  destruct (analyze_food_cases w request st)
    as [[e ->]|[[error ->]|(d & image_data & _ & _ & _ & ->)]].
  - eexists. split; [done|]. split; [auto|]. split; [done | by intros [? ?]].
  - eexists. split; [done|]. split; [auto|]. split; [done | by intros [? ?]].
  - destruct (call_gemini_api w image_data st) as [[e|result] st'].
    + eexists. split; [done|]. split; [auto|]. split; [done | by intros [? ?]].
    + eexists. split; [done|]. split; [auto|]. split; [by exists result | done].
Qed.

(** X8: the endpoint changes the state only by calling the model, and calls
    it only for a body whose [image] is a string that starts with
    [data:image/], with a key configured and a payload that decodes; the
    answer is then a 200. *)
Theorem analyze_food_reaches_the_model_only_when_valid w request st :
  (analyze_food w request st).2 = st ∨
  ∃ (d : gmap string JValue) image_data part image_bytes result,
    get_json request = inr (JDict d) ∧
    d !! "image" = Some (JStr image_data) ∧
    String.prefix "data:image/" image_data = true ∧
    is_set (GEMINI_API_KEY w) = true ∧
    image_b64 image_data = inr part ∧
    b64decode w part = inr image_bytes ∧
    analyze_food w request st =
    (inr {| body := SuccessBody result; status := 200 |}, called st image_bytes).
Proof.
  destruct (analyze_food_cases w request st)
    as [[e ->]|[[error ->]|(d & image_data & Hjson & Himage & Hprefix & ->)]];
    [by left..|].
  destruct (image_b64_total image_data) as [part Hpart].
  destruct (is_set (GEMINI_API_KEY w)) eqn:Hkey; cycle 1.
  { left. by rewrite call_gemini_api_no_key. }
  destruct (b64decode w part) as [e|image_bytes] eqn:Hbytes.
  { left. by rewrite (call_gemini_api_undecodable w image_data part e st). }
  destruct (call_gemini_api_decoded w image_data part image_bytes st) as [result ->]; [done..|].
  right. by exists d, image_data, part, image_bytes, result.
Qed.

(** X9: what the catch-all answers for input the handler does not expect.
    An exception of [get_json], a body that is a non-zero number or [true], a
    list or string body that contains [image], and an [image] that is not a
    string are all answered 500 with the text of the exception, and the
    model is not called. *)
Theorem analyze_food_unexpected_input w request st :
  (∀ e, get_json request = inl e →
        analyze_food w request st = (inr (server_error w e), st)) ∧
  (∀ data, get_json request = inr data →
           truthy data = true →
           match data with
           | JBool _ | JInt _ | JFloat _ =>
               analyze_food w request st =
               (inr (server_error w (TypeError "in" (type_name data))), st)
           | JStr _ | JList _ =>
               lacks "image" data = inr false →
               analyze_food w request st =
               (inr (server_error w (TypeError "getitem" (type_name data))), st)
           | JDict d =>
               ∀ v, d !! "image" = Some v →
                    (∀ s, v ≠ JStr s) →
                    analyze_food w request st =
                    (inr (server_error w (AttributeError (type_name v) "startswith")), st)
           | JNull => True
           end).
Proof.
  split.
  - intros e Hjson. unfold analyze_food, try_except, bind, lift, ret. by rewrite Hjson.
  - intros data Hjson Htruthy.
    destruct data as [|b|z|f|s|l|d]; [done|..];
      unfold analyze_food, try_except, bind, lift, ret; rewrite Hjson, Htruthy;
      cbn [negb]; try done.
    + by intros ->.
    + by intros ->.
    + intros v Himage Hnot. cbn [lacks subscript].
      rewrite Himage, bool_decide_eq_false_2 by done.
      destruct v as [| | | |s| |]; try done. by destruct (Hnot s).
Qed.

Lemma analyze_food_unexpected_input_witness :
  let w := example_world (Some "key") (inr "") (λ _, inl (External "Expecting value")) in
  analyze_food w {| get_json := inl (External "415 Unsupported Media Type") |} fresh =
  (inr {| body := ErrorBody "分析中にエラーが発生しました: 415 Unsupported Media Type";
          status := 500 |}, fresh) ∧
  analyze_food w {| get_json := inr (JInt 5) |} fresh =
  (inr (server_error w (TypeError "in" "int")), fresh) ∧
  analyze_food w {| get_json := inr (JList [JStr "image"]) |} fresh =
  (inr (server_error w (TypeError "getitem" "list")), fresh) ∧
  analyze_food w {| get_json := inr (JDict {[ "image" := JInt 5 ]}) |} fresh =
  (inr (server_error w (AttributeError "int" "startswith")), fresh).
Proof.
  intros w. split; [|split; [|split]].
  - exact (proj1 (analyze_food_unexpected_input w
                    {| get_json := inl (External "415 Unsupported Media Type") |} fresh)
             (External "415 Unsupported Media Type") eq_refl).
  - apply (proj2 (analyze_food_unexpected_input w {| get_json := inr (JInt 5) |} fresh)
             (JInt 5) eq_refl eq_refl).
  - apply (proj2 (analyze_food_unexpected_input w
                    {| get_json := inr (JList [JStr "image"]) |} fresh)
             (JList [JStr "image"]) eq_refl eq_refl eq_refl).
  - assert (truthy (JDict {[ "image" := JInt 5 ]}) = true) as Htruthy
      by (vm_compute; reflexivity).
    apply (proj2 (analyze_food_unexpected_input w
                    {| get_json := inr (JDict {[ "image" := JInt 5 ]}) |} fresh)
             (JDict {[ "image" := JInt 5 ]}) eq_refl Htruthy (JInt 5) eq_refl).
    intros s. discriminate.
Defined.

(** ** More on the interpretation of a reply *)

Lemma filterR_nil {A} (p : A → Result bool) xs :
  filterR p xs = inr [] → Forall (λ x, p x = inr false) xs.
Proof.
  induction xs as [|x xs IH]; simpl; [by constructor|].
  destruct (p x) as [e|b] eqn:Hp; [done|]. simpl.
  destruct (filterR p xs) as [e|ys]; [done|]. simpl.
  destruct b; [done|]. intros [= ->]. constructor; [done | by apply IH].
Qed.

Lemma verdict_safe w foods r :
  verdict w foods = inr r →
  safe r = true →
  r = no_risk ∧ ∃ items, iterate foods = inr items ∧ Forall (λ item, is_risky item = inr false) items.
Proof.
  unfold verdict. destruct (iterate foods) as [e|items]; [done|]. simpl.
  destruct (filterR is_risky items) as [e|risky_foods] eqn:Hfilter; [done|]. simpl.
  case_bool_decide as Hlen.
  - intros [= <-] _. split; [done|]. exists items. split; [done|].
    apply filterR_nil. by destruct risky_foods.
  - destruct (mapR _ risky_foods) as [e|detected]; [done|]. simpl.
    destruct (mapR (detail_line w) risky_foods) as [e|lines]; [done|]. simpl.
    by intros [= <-].
Qed.

(** X10: the vision call fails closed. It reports a meal as safe only
    when a key is configured, the payload decoded, the model replied, the
    reply held JSON that parsed, [foods] could be read and iterated, and
    every item answered [get('risk')] with a falsy value; the result is then
    the fixed reassurance. *)
Theorem safe_verdict_needs_a_clean_reply w image_data st r :
  (call_gemini_api w image_data st).1 = inr r →
  safe r = true →
  r = no_risk ∧
  ∃ part image_bytes text foods_json foods_data foods items,
    is_set (GEMINI_API_KEY w) = true ∧
    image_b64 image_data = inr part ∧
    b64decode w part = inr image_bytes ∧
    generate_content w prompt "image/jpeg" image_bytes = inr text ∧
    re_search text = Some foods_json ∧
    json_loads w foods_json = inr foods_data ∧
    get foods_data "foods" (JList []) = inr foods ∧
    iterate foods = inr items ∧
    Forall (λ item, is_risky item = inr false) items.
Proof.
  unfold call_gemini_api, bind, lift, try_except, model_generate_content, ret.
  destruct (is_set _) eqn:Hkey; simpl; [|by intros [= <-]].
  destruct (image_b64 image_data) as [e|part] eqn:Hpart; [done|].
  destruct (b64decode w part) as [e|image_bytes] eqn:Hbytes; [done|].
  destruct (generate_content _ _ _ _) as [e|text] eqn:Hgen; simpl; [by intros [= <-]|].
  destruct (read_reply w text) as [e|r'] eqn:Hreply; simpl; [by intros [= <-]|].
  intros [= <-] Hsafe. revert Hreply. unfold read_reply.
  destruct (re_search text) as [foods_json|] eqn:Hsearch; [|by intros [= <-]].
  destruct (json_loads w foods_json) as [e|foods_data] eqn:Hjson; simpl; [by intros [= <-]|].
  destruct (get foods_data "foods" (JList [])) as [e|foods] eqn:Hfoods; [by intros [= <-]|].
  intros Hverdict. destruct (verdict_safe w foods r' Hverdict Hsafe) as [-> (items & Hitems & Hall)].
  split; [done|]. by exists part, image_bytes, text, foods_json, foods_data, foods, items.
Qed.

Lemma safe_verdict_needs_a_clean_reply_witness :
  let w := example_world (Some "key") (inr "{}") (parses "{}" (JDict ∅)) in
  no_risk = no_risk ∧
  ∃ part image_bytes text foods_json foods_data foods items,
    is_set (GEMINI_API_KEY w) = true ∧
    image_b64 "data:image/jpeg;base64,AAAA" = inr part ∧
    b64decode w part = inr image_bytes ∧
    generate_content w prompt "image/jpeg" image_bytes = inr text ∧
    re_search text = Some foods_json ∧
    json_loads w foods_json = inr foods_data ∧
    get foods_data "foods" (JList []) = inr foods ∧
    iterate foods = inr items ∧
    Forall (λ item, is_risky item = inr false) items.
Proof.
  intros w.
  apply (safe_verdict_needs_a_clean_reply w "data:image/jpeg;base64,AAAA" fresh no_risk);
    reflexivity.
Defined.

Lemma interpret_parsed w text foods_json (o : gmap string JValue) :
  re_search text = Some foods_json →
  json_loads w foods_json = inr (JDict o) →
  interpret w text =
  match verdict w (default (JList []) (o !! "foods")) with
  | inr r => r
  | inl e => api_error w e
  end.
Proof.
  intros Hsearch Hjson. unfold interpret, read_reply. by rewrite Hsearch, Hjson.
Qed.

(** X11: what the interpretation does when [foods] is missing or is not a
    list. Without the key, and for an empty string or an empty object, no
    item is inspected and the meal is reported safe. None, a boolean and a
    number cannot be iterated; a non-empty string or object is iterated over
    characters or keys, which have no [get]. Both end in the API-call error. *)
Theorem interpret_foods_not_a_list w text foods_json (o : gmap string JValue) :
  re_search text = Some foods_json →
  json_loads w foods_json = inr (JDict o) →
  match o !! "foods" with
  | None => interpret w text = no_risk
  | Some (JList _) => True
  | Some (JStr s) =>
      interpret w text =
      if String.eqb s "" then no_risk else api_error w (AttributeError "str" "get")
  | Some (JDict d) =>
      interpret w text =
      if bool_decide (d = ∅) then no_risk else api_error w (AttributeError "str" "get")
  | Some foods => interpret w text = api_error w (TypeError "iter" (type_name foods))
  end.
Proof.
  intros Hsearch Hjson. rewrite (interpret_parsed w text foods_json o) by done.
  destruct (o !! "foods") as [[|b|z|f|s|l|d]|]; try done.
  - by destruct s.
  - unfold verdict. simpl. case_bool_decide as Hd.
    + subst d. by rewrite map_to_list_empty.
    + destruct (map_to_list d) as [|[k v] kvs] eqn:E; [|done].
      by apply map_to_list_empty_iff in E.
Qed.

Lemma interpret_foods_not_a_list_witness :
  interpret (example_world (Some "key") (inr "{}") (parses "{}" (JDict ∅))) "{}" = no_risk ∧
  interpret (example_world (Some "key") (inr null_foods_text)
               (parses null_foods_text null_foods_json)) null_foods_text =
  api_error (example_world (Some "key") (inr null_foods_text)
               (parses null_foods_text null_foods_json)) (TypeError "iter" "NoneType").
Proof.
  split.
  - exact (interpret_foods_not_a_list
             (example_world (Some "key") (inr "{}") (parses "{}" (JDict ∅)))
             "{}" "{}" ∅ eq_refl eq_refl).
  - exact (interpret_foods_not_a_list
             (example_world (Some "key") (inr null_foods_text)
                (parses null_foods_text null_foods_json))
             null_foods_text null_foods_text {[ "foods" := JNull ]} eq_refl eq_refl).
Defined.

Lemma filterR_stops {A} (p : A → Result bool) before x after e :
  Forall (λ y, ∃ b, p y = inr b) before →
  p x = inl e →
  filterR p (before ++ x :: after)%list = inl e.
Proof.
  intros Hbefore Hx. induction Hbefore as [|y before [b Hy] _ IH]; simpl.
  - by rewrite Hx.
  - by rewrite Hy, IH.
Qed.

(** X12: one item of [foods] that is not an object spoils the verdict, even
    when no item is flagged: the first such item raises on [get], and the
    result is the API-call error for that exception. *)
Theorem interpret_item_not_an_object
    w text foods_json (o : gmap string JValue) before item after :
  re_search text = Some foods_json →
  json_loads w foods_json = inr (JDict o) →
  o !! "foods" = Some (JList (before ++ item :: after)) →
  forallb is_dict before = true →
  is_dict item = false →
  interpret w text = api_error w (AttributeError (type_name item) "get").
Proof.
  intros Hsearch Hjson Hfoods Hbefore Hitem.
  rewrite (interpret_parsed w text foods_json o), Hfoods by done.
  unfold verdict. simpl.
  rewrite (filterR_stops is_risky before item after (AttributeError (type_name item) "get")).
  - done.
  - apply Forall_forall. intros y Hy%list_elem_of_In.
    rewrite forallb_forall in Hbefore. specialize (Hbefore y Hy).
    destruct y; try done. by eexists.
  - by destruct item.
Qed.

Lemma interpret_item_not_an_object_witness :
  interpret
    (example_world (Some "key") (inr mixed_foods_text) (parses mixed_foods_text mixed_foods_json))
    mixed_foods_text =
  {| safe := false; detected_food := DFNone;
     message := "Gemini API呼び出しエラー: 'int' object has no attribute 'get'";
     details := "" |}.
Proof.
  exact (interpret_item_not_an_object
           (example_world (Some "key") (inr mixed_foods_text)
              (parses mixed_foods_text mixed_foods_json))
           mixed_foods_text mixed_foods_text
           {[ "foods" := JList [JDict {[ "risk" := JBool false ]}; JInt 3] ]}
           [JDict {[ "risk" := JBool false ]}] (JInt 3) []
           eq_refl eq_refl eq_refl eq_refl eq_refl).
Defined.

Lemma filterR_dicts items :
  forallb is_dict items = true → filterR is_risky items = inr (flagged items).
Proof.
  induction items as [|item items IH]; simpl; [done|].
  intros [Hitem Hitems]%andb_true_iff. rewrite (IH Hitems).
  by destruct item.
Qed.

Lemma mapR_inl {A B} (g : A → Result B) xs e0 :
  (∀ x e, x ∈ xs → g x = inl e → e = e0) →
  (∃ x e, x ∈ xs ∧ g x = inl e) →
  mapR g xs = inl e0.
Proof.
  induction xs as [|x xs IH]; simpl; intros Hall (c & e & Hc & He).
  - by apply elem_of_nil in Hc.
  - destruct (g x) as [e'|y] eqn:Hx.
    + by rewrite (Hall x e') by (done || left).
    + simpl. rewrite IH; [done | |].
      * intros x' e' Hx'. apply Hall. by right.
      * apply elem_of_cons in Hc as [->|Hc]; [congruence|]. by exists c, e.
Qed.

Lemma flagged_dict items item :
  forallb is_dict items = true →
  item ∈ flagged items →
  item ∈ items ∧ truthy (field "risk" item) = true ∧ ∃ f, item = JDict f.
Proof.
  intros Hitems [Hin Hrisk]%list_elem_of_In%filter_In.
  split; [by apply list_elem_of_In|]. split; [done|].
  rewrite forallb_forall in Hitems. specialize (Hitems item Hin).
  destruct item; try done. by eexists.
Qed.

Lemma flagged_without_In key items :
  existsb (flagged_without key) items = true →
  ∃ item, item ∈ flagged items ∧ has_field key item = false.
Proof.
  intros (item & Hin & [Hrisk Hkey%negb_true_iff]%andb_true_iff)%existsb_exists.
  exists item. split; [|done]. apply list_elem_of_In, filter_In. by split.
Qed.

(** X13: which exception a flagged item without a field produces, for a
    [foods] list of objects. The names of all flagged items are collected
    before any line of details is built, so a missing [name] anywhere is
    reported as KeyError 'name', also when an earlier item lacks [details];
    KeyError 'details' is reported only when every flagged item has a name. *)
Theorem missing_name_is_reported_first w text foods_json (o : gmap string JValue) items :
  re_search text = Some foods_json →
  json_loads w foods_json = inr (JDict o) →
  o !! "foods" = Some (JList items) →
  forallb is_dict items = true →
  (existsb (flagged_without "name") items = true →
   interpret w text = api_error w (KeyError "name")) ∧
  (existsb (flagged_without "name") items = false →
   existsb (flagged_without "details") items = true →
   interpret w text = api_error w (KeyError "details")).
Proof.
  intros Hsearch Hjson Hfoods Hitems.
  rewrite (interpret_parsed w text foods_json o), Hfoods by done.
  unfold verdict. simpl. rewrite (filterR_dicts items Hitems). simpl.
  pose proof (flagged_dict items) as Hdict.
  split.
  - intros (item & Hin & Hname)%flagged_without_In.
    rewrite bool_decide_eq_false_2 by (by destruct (flagged items); [apply elem_of_nil in Hin|]).
    rewrite (mapR_inl _ _ (KeyError "name")); [done | |].
    + intros x e (_ & _ & f & ->)%Hdict; [|done]. simpl.
      destruct (f !! "name"); [done | by intros [= <-]].
    + destruct (Hdict item Hitems Hin) as (_ & _ & f & ->). simpl in Hname.
      exists (JDict f), (KeyError "name"). split; [done|]. simpl.
      destruct (f !! "name") as [v|] eqn:E; [|done].
      by rewrite bool_decide_eq_true_2 in Hname.
  - intros Hnames (item & Hin & Hdetails)%flagged_without_In.
    rewrite bool_decide_eq_false_2 by (by destruct (flagged items); [apply elem_of_nil in Hin|]).
    assert (∀ x, x ∈ flagged items → ∃ f v, x = JDict f ∧ f !! "name" = Some v) as Hnamed.
    { intros x Hx. destruct (Hdict x Hitems Hx) as (Hxin & Hrisk & f & ->).
      destruct (f !! "name") as [v|] eqn:E; [by exists f, v|].
      assert (existsb (flagged_without "name") items = true) as Hex; [|congruence].
      apply existsb_exists. exists (JDict f). split; [by apply list_elem_of_In|].
      unfold flagged_without. rewrite Hrisk. simpl. by rewrite E. }
    rewrite (mapR_total _ (field "name")).
    2:{ intros x (f & v & -> & Hv)%Hnamed. simpl. by rewrite Hv. }
    simpl. rewrite (mapR_inl _ _ (KeyError "details")); [done | |].
    + intros x e (f & v & -> & Hv)%Hnamed. unfold detail_line. simpl. rewrite Hv. simpl.
      destruct (f !! "details"); [done | by intros [= <-]].
    + destruct (Hnamed item Hin) as (f & v & -> & Hv). simpl in Hdetails.
      exists (JDict f), (KeyError "details"). split; [done|].
      unfold detail_line. simpl. rewrite Hv. simpl.
      destruct (f !! "details") as [v'|] eqn:E; [|done].
      by rewrite bool_decide_eq_true_2 in Hdetails.
Qed.

Lemma missing_name_is_reported_first_witness :
  interpret (example_world (Some "key") (inr two_gaps_text)
               (parses two_gaps_text (JDict {[ "foods" := JList two_gaps_items ]})))
    two_gaps_text =
  {| safe := false; detected_food := DFNone;
     message := "Gemini API呼び出しエラー: 'name'"; details := "" |} ∧
  interpret (example_world (Some "key") (inr no_details_text)
               (parses no_details_text (JDict {[ "foods" := JList no_details_items ]})))
    no_details_text =
  {| safe := false; detected_food := DFNone;
     message := "Gemini API呼び出しエラー: 'details'"; details := "" |}.
Proof.
  split.
  - assert (({[ "foods" := JList two_gaps_items ]} : gmap string JValue) !! "foods"
            = Some (JList two_gaps_items)) as Hfoods by (vm_compute; reflexivity).
    apply (proj1 (missing_name_is_reported_first
                    (example_world (Some "key") (inr two_gaps_text)
                       (parses two_gaps_text (JDict {[ "foods" := JList two_gaps_items ]})))
                    two_gaps_text two_gaps_text {[ "foods" := JList two_gaps_items ]}
                    two_gaps_items eq_refl eq_refl Hfoods eq_refl)).
    vm_compute. reflexivity.
  - assert (({[ "foods" := JList no_details_items ]} : gmap string JValue) !! "foods"
            = Some (JList no_details_items)) as Hfoods by (vm_compute; reflexivity).
    apply (proj2 (missing_name_is_reported_first
                    (example_world (Some "key") (inr no_details_text)
                       (parses no_details_text (JDict {[ "foods" := JList no_details_items ]})))
                    no_details_text no_details_text {[ "foods" := JList no_details_items ]}
                    no_details_items eq_refl eq_refl Hfoods eq_refl));
      vm_compute; reflexivity.
Defined.

(** ** From the request to the response *)

(** X15: the whole route on a request that passes every check. With a key
    configured, an [image] that starts with [data:image/] and decodes, and a
    model that replies [text], the endpoint answers 200 with the
    interpretation of [text] as the result, after exactly one model call. *)
Theorem analyze_food_end_to_end
    w request (d : gmap string JValue) image_data part image_bytes text st :
  get_json request = inr (JDict d) →
  d !! "image" = Some (JStr image_data) →
  String.prefix "data:image/" image_data = true →
  is_set (GEMINI_API_KEY w) = true →
  image_b64 image_data = inr part →
  b64decode w part = inr image_bytes →
  generate_content w prompt "image/jpeg" image_bytes = inr text →
  analyze_food w request st =
  (inr {| body := SuccessBody (interpret w text); status := 200 |}, called st image_bytes).
Proof.
  intros Hjson Himage Hprefix Hkey Hpart Hbytes Htext.
  rewrite (analyze_food_delegates w request d image_data st) by done.
  by rewrite (call_gemini_api_reply w image_data part image_bytes text st).
Qed.

Lemma analyze_food_end_to_end_witness :
  analyze_food
    (example_world (Some "key") (inr salmon_text) (parses salmon_json_text salmon_json))
    (post "data:image/jpeg;base64,AAAA") fresh =
  (inr {| body := SuccessBody
            {| safe := false; detected_food := DFNames [JStr "salmon"];
               message := "リスクがある食品が含まれています。詳細をご確認ください。";
               details := "salmon: parasites" |};
          status := 200 |},
   called fresh [Byte.x00; Byte.x00; Byte.x00]).
Proof.
  assert (interpret
            (example_world (Some "key") (inr salmon_text) (parses salmon_json_text salmon_json))
            salmon_text =
          {| safe := false; detected_food := DFNames [JStr "salmon"];
             message := "リスクがある食品が含まれています。詳細をご確認ください。";
             details := "salmon: parasites" |}) as <- by (vm_compute; reflexivity).
  apply (analyze_food_end_to_end _ _ {[ "image" := JStr "data:image/jpeg;base64,AAAA" ]}
           "data:image/jpeg;base64,AAAA" "AAAA" [Byte.x00; Byte.x00; Byte.x00] salmon_text);
    reflexivity.
Defined.
